(** * PokeSearch backend: a shallow embedding of [backend/main.py]

    The development follows the layout of the Python module: the grade
    classifier ([detect_grade_from_title]) with the fragment of Python's [re]
    it needs, the marketplace and image clients, the price aggregation
    ([gather_prices_by_grade]), and the request handlers over the two tables
    [users] and [searches], written in an error monad over an explicit
    database state.

    What lies outside the module is a parameter of the model: the answers of
    the marketplace and of the two image providers, the clock, the rate
    limiter and the salt come with each request ([World]); the environment
    constants and the password context are a [Config]; float arithmetic is
    an interface ([PriceArith]) with an exact instance over the rationals.
    Outbound requests are recorded in the order they are issued, so that
    the properties can say which provider was asked. *)

From Stdlib Require Import List String Ascii Bool ZArith NArith QArith Qabs Lia.
Import ListNotations.

Local Close Scope Q_scope.
Local Open Scope string_scope.
Local Open Scope list_scope.

(** ** Characters

    A title is a Python [str].  The model covers the code points below 256
    and reads a Rocq [ascii] as such a code point; the character classes
    below are those of Python 3's [re] on [str] patterns (Unicode aware)
    restricted to that range. *)

Module Chars.

Definition code (c : ascii) : N := N_of_ascii c.

Definition in_range (lo hi : N) (c : ascii) : bool :=
  (N.leb lo (code c) && N.leb (code c) hi)%bool.

(** [str.lower] on one code point below 256: A-Z and the Latin-1 capitals
    (0xC0-0xDE without the multiplication sign 0xD7) move up by 32. *)
Definition is_upper (c : ascii) : bool :=
  (in_range 65 90 c
   || (in_range 192 222 c && negb (N.eqb (code c) 215)))%bool.

Definition lower_char (c : ascii) : ascii :=
  if is_upper c then ascii_of_N (code c + 32) else c.

(** [\d]: the decimal digits. *)
Definition is_digit (c : ascii) : bool := in_range 48 57 c.

(** [\w]: alphanumeric code points and the underscore. *)
Definition is_word (c : ascii) : bool :=
  (in_range 48 57 c || in_range 65 90 c || N.eqb (code c) 95
   || in_range 97 122 c
   || N.eqb (code c) 170 || in_range 178 179 c || N.eqb (code c) 181
   || in_range 185 186 c || in_range 188 190 c
   || in_range 192 214 c || in_range 216 246 c || in_range 248 255 c)%bool.

(** [\s]: white space. *)
Definition is_space (c : ascii) : bool :=
  (in_range 9 13 c || in_range 28 32 c
   || N.eqb (code c) 133 || N.eqb (code c) 160)%bool.

(** The class [[\s\-]] of the grade patterns. *)
Definition is_sep (c : ascii) : bool :=
  (is_space c || Ascii.eqb c "-")%bool.

End Chars.
Import Chars.

Definition lower (s : list ascii) : list ascii := map lower_char s.

(** ** The fragment of [re] used by the classifier *)

Module Re.

Inductive regex : Type :=
| Lit (c : ascii)                (* a literal character *)
| Cls (f : ascii -> bool)        (* a character class *)
| WordB                          (* \b *)
| Cat (r1 r2 : regex)            (* r1 r2 *)
| Opt (r : regex)                (* r? *)
| Many1 (f : ascii -> bool).     (* [class]+ *)

(** [\b] holds between two positions exactly one of which is a word
    character; the outside of the string counts as a non-word. *)
Definition word_opt (c : option ascii) : bool :=
  match c with Some x => is_word x | None => false end.

Definition at_boundary (prev : option ascii) (s : list ascii) : bool :=
  xorb (word_opt prev) (word_opt (hd_error s)).

(** One or more characters of a class, longest first, then shorter. *)
Fixpoint many (f : ascii -> bool) (last : ascii) (s : list ascii)
         (k : option ascii -> list ascii -> bool) : bool :=
  match s with
  | x :: t => ((if f x then many f x t k else false) || k (Some last) s)%bool
  | [] => k (Some last) s
  end.

(** Backtracking matcher in continuation style: [prev] is the character
    before the current position, [k] decides on the rest. *)
Fixpoint rmatch (r : regex) (prev : option ascii) (s : list ascii)
         (k : option ascii -> list ascii -> bool) : bool :=
  match r with
  | Lit c =>
      match s with
      | x :: t => if Ascii.eqb x c then k (Some x) t else false
      | [] => false
      end
  | Cls f =>
      match s with
      | x :: t => if f x then k (Some x) t else false
      | [] => false
      end
  | WordB => (at_boundary prev s && k prev s)%bool
  | Cat r1 r2 => rmatch r1 prev s (fun p t => rmatch r2 p t k)
  | Opt r1 => (rmatch r1 prev s k || k prev s)%bool
  | Many1 f =>
      match s with
      | x :: t => if f x then many f x t k else false
      | [] => false
      end
  end.

Definition accept : option ascii -> list ascii -> bool := fun _ _ => true.

(** [pattern.search]: a match starting at some position of the string. *)
Fixpoint search_from (r : regex) (prev : option ascii) (s : list ascii)
  : bool :=
  (rmatch r prev s accept
   || match s with
      | x :: t => search_from r (Some x) t
      | [] => false
      end)%bool.

Definition search (r : regex) (s : list ascii) : bool :=
  search_from r None s.

Fixpoint lits (s : list ascii) (r : regex) : regex :=
  match s with
  | [] => r
  | c :: t => Cat (Lit c) (lits t r)
  end.

End Re.
Import Re.

(** ** Grade classifier *)

Inductive Grade : Type := raw | PSA | CGC | BGS.

Definition Grade_eqb (a b : Grade) : bool :=
  match a, b with
  | raw, raw | PSA, PSA | CGC, CGC | BGS, BGS => true
  | _, _ => false
  end.

(** [\d{1,2}(?:\.\d+)?] *)
Definition grade_number : regex :=
  Cat (Cat (Cls is_digit) (Opt (Cls is_digit)))
      (Opt (Cat (Lit ".") (Many1 is_digit))).

(** [\b<abbr>[\s\-]?(\d{1,2}(?:\.\d+)?)\b] *)
Definition grade_pattern (abbr : string) : regex :=
  Cat WordB
      (lits (list_ascii_of_string abbr)
            (Cat (Opt (Cls is_sep)) (Cat grade_number WordB))).

(** The dict [patterns], in insertion order. *)
Definition patterns : list (Grade * regex) :=
  [ (PSA, grade_pattern "psa");
    (BGS, grade_pattern "bgs");
    (CGC, grade_pattern "cgc") ].

Fixpoint first_match (ps : list (Grade * regex)) (t : list ascii) : Grade :=
  match ps with
  | [] => raw
  | (label, pat) :: rest =>
      if search pat t then label else first_match rest t
  end.

(** The title is [None] when the JSON value is null. *)
Definition detect_grade_from_title (title : option string) : Grade :=
  match title with
  | None => raw
  | Some "" => raw
  | Some s => first_match patterns (lower (list_ascii_of_string s))
  end.


(** ** Configuration and external values *)

(** Prices are Python floats.  The arithmetic the handlers use on them is
    kept behind an interface: [p_sum] is the builtin [sum] (started at the
    integer 0), [p_div] the true division by [len(v)], [p_round2] is
    [round(x, 2)], [p_zero] the integer 0 of an empty bucket, and [p_finite]
    tells whether a value is accepted by a JSON response (neither NaN nor an
    infinity). *)
Class PriceArith (F : Type) : Type := {
  p_zero : F;
  p_sum : list F -> F;
  p_div : F -> nat -> F;
  p_round2 : F -> F;
  p_finite : F -> bool;
  p_zero_finite : p_finite p_zero = true
}.

(** Times are counted in microseconds, the resolution of [datetime]. *)
Definition Time : Type := Z.

Definition microseconds_per_second : Z := 1000000.
Definition timedelta_minutes (m : Z) : Z := m * 60 * microseconds_per_second.
Definition timedelta_days (d : Z) : Z := d * 86400 * microseconds_per_second.

(** The module constants read from the environment, and the password
    context ([pwd_context.hash] draws a salt, [pwd_context.verify] checks a
    password against a stored hash). *)
Record Config : Type := {
  EBAY_OAUTH_TOKEN : string;
  GOOGLE_API_KEY : string;
  GOOGLE_CX : string;
  JWT_SECRET_KEY : string;
  ACCESS_TOKEN_EXPIRE_MINUTES : Z;
  pwd_hash : string -> string -> string;   (* salt, password *)
  pwd_verify : string -> string -> bool    (* password, stored hash *)
}.

Definition SEARCH_LIMIT_PER_GRADE : nat := 3.
Definition SAVED_SEARCH_EXPIRY_DAYS : Z := 7.

(** Python truthiness of an [Optional[str]]: [None] and the empty string
    are false. *)
Definition truthy (o : option string) : bool :=
  match o with
  | Some "" => false
  | Some _ => true
  | None => false
  end.

(** The string held by a truthy value. *)
Definition str_of (o : option string) : string :=
  match o with
  | Some s => s
  | None => ""
  end.

(** [a or b] on such values. *)
Definition por (a b : option string) : option string :=
  if truthy a then a else b.

(** [region.upper() == "AU"].  Only the four spellings of "au" upper-case to
    "AU": no other code point has A or U as its upper case, so the model
    upper-cases the ASCII letters and leaves the rest alone. *)
Definition upper_char (c : ascii) : ascii :=
  if in_range 97 122 c then ascii_of_N (code c - 32) else c.

Definition upper (s : string) : string :=
  string_of_list_ascii (map upper_char (list_ascii_of_string s)).

Definition marketplace_of (region : string) : string :=
  if String.eqb (upper region) "AU" then "EBAY_AU" else "EBAY_US".

(** The outcome of [requests.get(...)] followed by [r.json()]: the call
    raises, or answers with a status and a body; the body is [None] when it
    does not decode to the JSON object the caller reads. *)
Inductive Fetch (A : Type) : Type :=
| Raised
| Response (status_code : Z) (body : option A).
Arguments Raised {A}.
Arguments Response {A} status_code body.

(** [r.raise_for_status()] raises on the 4xx and 5xx codes; [r.ok] is its
    negation. *)
Definition response_ok (status_code : Z) : bool :=
  negb ((400 <=? status_code) && (status_code <? 600))%Z.

(** Outbound requests, in the order they are issued. *)
Inductive Call : Type :=
| CallEbay (keyword marketplace : string) (limit : Z)
| CallGoogle (q : string)
| CallDuckDuckGo (q : string).

(** ** Bearer tokens

    [jwt.encode] signs a set of claims with a key; [jwt.decode] accepts a
    token signed with the same key whose [exp] claim, in whole seconds, is
    not in the past. *)
Record Claims : Type := {
  sub : option string;
  exp : option Z
}.

Inductive Token : Type :=
| Malformed (raw_text : string)
| Jwt (key : string) (claims : Claims).

Definition seconds_of (t : Time) : Z := (t / microseconds_per_second)%Z.

Definition jwt_encode (c : Claims) (key : string) : Token := Jwt key c.

Definition jwt_decode (t : Token) (key : string) (now : Time) : option Claims :=
  match t with
  | Malformed _ => None
  | Jwt k c =>
      if String.eqb k key then
        match exp c with
        | Some e => if (e <? seconds_of now)%Z then None else Some c
        | None => Some c
        end
      else None
  end.

(** ** Handlers: errors over an explicit state

    A handler either returns or raises an [HTTPException]; the database it
    leaves behind is part of the result in both cases (there is no
    transaction around a handler). *)
Inductive HTTPException : Type :=
| mkHTTPException (status_code : Z) (detail : string).

Definition status_of (e : HTTPException) : Z :=
  match e with mkHTTPException c _ => c end.

Definition M (S A : Type) : Type := S -> (HTTPException + A) * S.

Definition ret {S A : Type} (a : A) : M S A := fun s => (inr a, s).

Definition raise {S A : Type} (e : HTTPException) : M S A :=
  fun s => (inl e, s).

Definition bind {S A B : Type} (m : M S A) (k : A -> M S B) : M S B :=
  fun s =>
    match m s with
    | (inl e, s') => (inl e, s')
    | (inr a, s') => k a s'
    end.

Definition gets {S A : Type} (f : S -> A) : M S A := fun s => (inr (f s), s).

Definition modify {S : Type} (f : S -> S) : M S unit := fun s => (inr tt, f s).

Declare Scope handler_scope.
Delimit Scope handler_scope with handler.
Notation "x <- c ;; k" := (bind c (fun x => k))
  (at level 61, c at next level, right associativity) : handler_scope.
Notation "c ;;; k" := (bind c (fun _ => k))
  (at level 61, right associativity) : handler_scope.

(** ** Tables *)

Record UserRow : Type := {
  u_id : Z;
  u_username : string;
  u_password_hash : string
}.

(** The next value of an auto-incremented primary key. *)
Definition next_id (ids : list Z) : Z := (1 + fold_right Z.max 0 ids)%Z.

(** ** Grade buckets *)

Section Backend.

Context {F : Type} {PA : PriceArith F}.
Variable cfg : Config.

(** The dict [grades]: its four keys never change. *)
Record Grades : Type := {
  g_raw : list F;
  g_PSA : list F;
  g_CGC : list F;
  g_BGS : list F
}.

Definition empty_grades : Grades :=
  {| g_raw := []; g_PSA := []; g_CGC := []; g_BGS := [] |}.

Definition bucket_of (g : Grades) (k : Grade) : list F :=
  match k with
  | raw => g_raw g
  | PSA => g_PSA g
  | CGC => g_CGC g
  | BGS => g_BGS g
  end.

(** [grades[bucket].append(price)] *)
Definition append_price (g : Grades) (k : Grade) (p : F) : Grades :=
  match k with
  | raw => {| g_raw := g_raw g ++ [p]; g_PSA := g_PSA g;
              g_CGC := g_CGC g; g_BGS := g_BGS g |}
  | PSA => {| g_raw := g_raw g; g_PSA := g_PSA g ++ [p];
              g_CGC := g_CGC g; g_BGS := g_BGS g |}
  | CGC => {| g_raw := g_raw g; g_PSA := g_PSA g;
              g_CGC := g_CGC g ++ [p]; g_BGS := g_BGS g |}
  | BGS => {| g_raw := g_raw g; g_PSA := g_PSA g;
              g_CGC := g_CGC g; g_BGS := g_BGS g ++ [p] |}
  end.

(** ** Listings

    An item summary as the aggregation reads it: [title] is
    [item.get("title", "")] ([None] for a JSON null); [price] is the
    result of [float(item.get("price", {}).get("value"))], [None] when
    that raises; [image] is [item["image"]["imageUrl"]] when both keys are
    there; [thumbnailImages] lists the [imageUrl] of each thumbnail. *)
Record Listing : Type := {
  title : option string;
  price : option F;
  image : option string;
  thumbnailImages : list (option string)
}.

(** A request's view of the outside world. *)
Record World : Type := {
  ebay : string -> string -> Z -> Fetch (list Listing);
  google : string -> Fetch (list (option string));      (* items[i].link *)
  duckduckgo : string -> Fetch (list (option string));  (* results[i].image *)
  utcnow : nat -> Time;        (* successive readings of the clock *)
  rate_limited : bool;         (* the route's quota is used up *)
  salt : string
}.

(** ** Image search fallbacks *)

Definition duckduckgo_image (w : World) (card_name : string)
  : option string * list Call :=
  (match duckduckgo w card_name with
   | Response _ (Some (first :: _)) => first
   | _ => None
   end, [CallDuckDuckGo card_name]).

Definition google_image_search (w : World) (card_name : string)
  : option string * list Call :=
  if (String.eqb (GOOGLE_API_KEY cfg) "" || String.eqb (GOOGLE_CX cfg) "")%bool
  then (None, [])
  else
    (match google w card_name with
     | Response st (Some (first :: _)) =>
         if response_ok st then first else None
     | _ => None
     end, [CallGoogle card_name]).

(** ** Marketplace client *)

Definition ebay_search_items (w : World) (keyword marketplace : string)
           (limit : Z) : list Listing * list Call :=
  if String.eqb (EBAY_OAUTH_TOKEN cfg) "" then ([], [])
  else
    (match ebay w keyword marketplace limit with
     | Response st (Some items) => if response_ok st then items else []
     | _ => []
     end, [CallEbay keyword marketplace limit]).

(** ** Price aggregation and image resolution *)

Definition listing_image (item : Listing) : option string :=
  let img := if truthy (image item) then image item else None in
  if (negb (truthy img) && negb (Nat.eqb (List.length (thumbnailImages item)) 0))%bool
  then hd None (thumbnailImages item)
  else img.

(** One iteration of the loop over [items]. *)
Definition gather_step (st : Grades * option string) (item : Listing)
  : Grades * option string :=
  let (grades, image_url) := st in
  match price item with
  | None => st                                  (* except: continue *)
  | Some p =>
      let bucket := detect_grade_from_title (title item) in
      let grades' :=
        if Nat.ltb (List.length (bucket_of grades bucket)) SEARCH_LIMIT_PER_GRADE
        then append_price grades bucket p
        else grades in
      let image_url' :=
        if negb (truthy image_url) then
          let img := listing_image item in
          if truthy img then img else image_url
        else image_url in
      (grades', image_url')
  end.

Definition gather_loop (items : list Listing) : Grades * option string :=
  fold_left gather_step items (empty_grades, None).

(** [google_image_search(card_name) or duckduckgo_image(card_name) or ""] *)
Definition image_fallback (w : World) (card_name : string)
  : string * list Call :=
  let (g, cg) := google_image_search w card_name in
  if truthy g then (str_of g, cg)
  else
    let (d, cd) := duckduckgo_image w card_name in
    (str_of (por d (Some "")), cg ++ cd).

Definition gather_prices_by_grade (w : World) (card_name region : string)
  : Grades * string * list Call :=
  let mp := marketplace_of region in
  let (items, c1) := ebay_search_items w card_name mp 50 in
  let (grades, image_url) := gather_loop items in
  if negb (truthy image_url) then
    let (img, c2) := image_fallback w card_name in
    (grades, img, c1 ++ c2)
  else (grades, str_of image_url, c1).

(** [round(sum(v)/len(v), 2) if v else 0] *)
Definition average (v : list F) : F :=
  match v with
  | [] => p_zero
  | _ => p_round2 (p_div (p_sum v) (List.length v))
  end.

(** [{k: ... for k, v in grades.items()}] *)
Record Averages : Type := {
  a_raw : F;
  a_PSA : F;
  a_CGC : F;
  a_BGS : F
}.

Definition averages (g : Grades) : Averages :=
  {| a_raw := average (g_raw g); a_PSA := average (g_PSA g);
     a_CGC := average (g_CGC g); a_BGS := average (g_BGS g) |}.

Definition average_of (a : Averages) (k : Grade) : F :=
  match k with
  | raw => a_raw a
  | PSA => a_PSA a
  | CGC => a_CGC a
  | BGS => a_BGS a
  end.

Record Payload : Type := {
  avg : Averages;
  prices : Grades
}.

(** A row of [searches].  [last_result] holds [json.dumps(payload)] and
    is read back with [json.loads]; [last_updated] holds
    [datetime.isoformat()] and is read back with [fromisoformat]: both
    round trips are exact, so the columns are modelled by the values. *)
Record SearchRow : Type := {
  s_id : Z;
  s_user_id : Z;
  s_card_name : string;
  s_region : string;
  s_last_result : option Payload;
  s_last_image : option string;
  s_last_updated : option Time;
  s_confirmed : bool
}.

Record DB : Type := {
  users : list UserRow;
  searches : list SearchRow
}.

Definition empty_db : DB := {| users := []; searches := [] |}.

Definition H (A : Type) : Type := M DB A.

(** [users.select().where(users.c.username == username)], [fetch_one] *)
Definition fetch_user (username : string) : H (option UserRow) :=
  gets (fun db => find (fun u => String.eqb (u_username u) username) (users db)).

Definition insert_user (username pw_hash : string) : H unit :=
  modify (fun db =>
    {| users := users db ++
                [{| u_id := next_id (map u_id (users db));
                    u_username := username;
                    u_password_hash := pw_hash |}];
       searches := searches db |}).

Definition search_key (user_id : Z) (card_name : string) (r : SearchRow)
  : bool :=
  ((s_user_id r =? user_id)%Z && String.eqb (s_card_name r) card_name)%bool.

(** [searches.select().where((user_id == ..) & (card_name == ..))] *)
Definition fetch_search (user_id : Z) (card_name : string)
  : H (option SearchRow) :=
  gets (fun db => find (search_key user_id card_name) (searches db)).

(** [searches.update().where(searches.c.id == id).values(...)] *)
Definition update_search (id : Z) (values : SearchRow -> SearchRow)
  : H unit :=
  modify (fun db =>
    {| users := users db;
       searches := map (fun r => if (s_id r =? id)%Z then values r else r)
                       (searches db) |}).

Definition insert_search (user_id : Z) (card_name region : string)
           (result : Payload) (img : string) (now : Time) : H unit :=
  modify (fun db =>
    {| users := users db;
       searches := searches db ++
                   [{| s_id := next_id (map s_id (searches db));
                       s_user_id := user_id;
                       s_card_name := card_name;
                       s_region := region;
                       s_last_result := Some result;
                       s_last_image := Some img;
                       s_last_updated := Some now;
                       s_confirmed := false |}] |}).

(** ** Password and JWT helpers *)

Definition verify_password (plain_password hashed : string) : bool :=
  pwd_verify cfg plain_password hashed.

Definition get_password_hash (w : World) (password : string) : string :=
  pwd_hash cfg (salt w) password.

(** [expires_delta or timedelta(minutes=...)]: a zero delta is false. *)
Definition create_access_token (w : World) (data : Claims)
           (expires_delta : option Z) : Token :=
  let delta :=
    match expires_delta with
    | Some d => if (d =? 0)%Z
                then timedelta_minutes (ACCESS_TOKEN_EXPIRE_MINUTES cfg)
                else d
    | None => timedelta_minutes (ACCESS_TOKEN_EXPIRE_MINUTES cfg)
    end in
  let expire := (utcnow w 0 + delta)%Z in
  jwt_encode {| sub := sub data; exp := Some (seconds_of expire) |}
             (JWT_SECRET_KEY cfg).

Definition credentials_exception : HTTPException :=
  mkHTTPException 401 "Could not validate credentials".

Definition get_current_user (w : World) (token : Token) : H UserRow :=
  match jwt_decode token (JWT_SECRET_KEY cfg) (utcnow w 0) with
  | None => raise credentials_exception
  | Some payload =>
      match sub payload with
      | None => raise credentials_exception
      | Some username =>
          (user <- fetch_user username ;;
           match user with
           | None => raise credentials_exception
           | Some u => ret u
           end)%handler
      end
  end.

(** [Depends(oauth2_scheme)]: the bearer token of the request. *)
Definition oauth2_scheme (authorization : option Token) : H Token :=
  match authorization with
  | None => raise (mkHTTPException 401 "Not authenticated")
  | Some t => ret t
  end.

(** [Depends(RateLimiter(...))], run before the handler. *)
Definition rate_limiter (w : World) : H unit :=
  if rate_limited w
  then raise (mkHTTPException 429 "Too Many Requests")
  else ret tt.

(** A JSON response refuses NaN and the infinities. *)
Definition grades_finite (g : Grades) : bool :=
  (forallb p_finite (g_raw g) && forallb p_finite (g_PSA g)
   && forallb p_finite (g_CGC g) && forallb p_finite (g_BGS g))%bool.

Definition averages_finite (a : Averages) : bool :=
  (p_finite (a_raw a) && p_finite (a_PSA a)
   && p_finite (a_CGC a) && p_finite (a_BGS a))%bool.

Definition payload_finite (p : Payload) : bool :=
  (averages_finite (avg p) && grades_finite (prices p))%bool.

Definition json_response {A : Type} (finite : bool) (content : A) : H A :=
  if finite then ret content
  else raise (mkHTTPException 500 "Internal Server Error").

(** ** Auth and user management *)

Definition register (w : World) (username password : string) : H string :=
  (rate_limiter w ;;;
   existing <- fetch_user username ;;
   match existing with
   | Some _ => raise (mkHTTPException 400 "Username taken")
   | None =>
       let pw_hash := get_password_hash w password in
       insert_user username pw_hash ;;;
       ret "/login"
   end)%handler.

Record TokenResponse : Type := {
  access_token : Token;
  token_type : string
}.

Definition login_for_access_token (w : World) (username password : string)
  : H TokenResponse :=
  (user <- fetch_user username ;;
   match user with
   | None => raise (mkHTTPException 400 "Incorrect username or password")
   | Some u =>
       if negb (verify_password password (u_password_hash u))
       then raise (mkHTTPException 400 "Incorrect username or password")
       else
         let access_token :=
           create_access_token w
             {| sub := Some (u_username u); exp := None |} None in
         ret {| access_token := access_token; token_type := "bearer" |}
   end)%handler.

(** ** API: search and save *)

Record SearchResponse : Type := {
  sr_result : Payload;
  sr_image : string
}.

Definition api_search (w : World) (card_name region : string)
           (authorization : option Token) : H SearchResponse :=
  (rate_limiter w ;;;
   token <- oauth2_scheme authorization ;;
   current <- get_current_user w token ;;
   let '(grades, image_url, _) := gather_prices_by_grade w card_name region in
   let payload := {| avg := averages grades; prices := grades |} in
   let now := utcnow w 1 in
   existing <- fetch_search (u_id current) card_name ;;
   match existing with
   | Some e =>
       update_search (s_id e) (fun r =>
         {| s_id := s_id r; s_user_id := s_user_id r;
            s_card_name := s_card_name r; s_region := s_region r;
            s_last_result := Some payload;
            s_last_image := Some image_url;
            s_last_updated := Some now;
            s_confirmed := false |})
   | None =>
       insert_search (u_id current) card_name region payload image_url now
   end ;;;
   json_response (payload_finite payload)
     {| sr_result := payload; sr_image := image_url |})%handler.

Record RefreshResponse : Type := {
  rr_avg : Averages;
  rr_image : string
}.

Definition api_refresh (w : World) (card_name : string)
           (authorization : option Token) : H RefreshResponse :=
  (rate_limiter w ;;;
   token <- oauth2_scheme authorization ;;
   current <- get_current_user w token ;;
   row <- fetch_search (u_id current) card_name ;;
   match row with
   | None => raise (mkHTTPException 404 "not found")
   | Some row =>
       let region := s_region row in
       let '(grades, image_url, _) :=
         gather_prices_by_grade w card_name region in
       let avg := averages grades in
       let now := utcnow w 1 in
       update_search (s_id row) (fun r =>
         {| s_id := s_id r; s_user_id := s_user_id r;
            s_card_name := s_card_name r; s_region := s_region r;
            s_last_result := Some {| avg := avg; prices := grades |};
            s_last_image := Some image_url;
            s_last_updated := Some now;
            s_confirmed := false |}) ;;;
       json_response (averages_finite avg)
         {| rr_avg := avg; rr_image := image_url |}
   end)%handler.

Definition api_confirm_image (w : World) (card_name image_url : string)
           (authorization : option Token) : H unit :=
  (rate_limiter w ;;;
   token <- oauth2_scheme authorization ;;
   current <- get_current_user w token ;;
   row <- fetch_search (u_id current) card_name ;;
   match row with
   | None => raise (mkHTTPException 404 "not found")
   | Some row =>
       let now := utcnow w 1 in
       update_search (s_id row) (fun r =>
         {| s_id := s_id r; s_user_id := s_user_id r;
            s_card_name := s_card_name r; s_region := s_region r;
            s_last_result := s_last_result r;
            s_last_image := Some image_url;
            s_last_updated := Some now;
            s_confirmed := true |})
   end)%handler.

(** [not last_updated or (utcnow() - fromisoformat(last_updated) >
    timedelta(days=SAVED_SEARCH_EXPIRY_DAYS))] *)
Definition expired (now : Time) (last_updated : option Time) : bool :=
  match last_updated with
  | None => true
  | Some t => (timedelta_days SAVED_SEARCH_EXPIRY_DAYS <? now - t)%Z
  end.

Record SavedItem : Type := {
  si_card_name : string;
  si_region : string;
  si_last_result : option Payload;    (* [None] stands for the empty dict *)
  si_last_image : option string;
  si_last_updated : option Time;
  si_confirmed : bool;
  si_expired : bool
}.

(** The loop over [rows]; the clock is read once per row. *)
Fixpoint saved_items (w : World) (i : nat) (rows : list SearchRow)
  : list SavedItem :=
  match rows with
  | [] => []
  | r :: rest =>
      {| si_card_name := s_card_name r;
         si_region := s_region r;
         si_last_result := s_last_result r;
         si_last_image := s_last_image r;
         si_last_updated := s_last_updated r;
         si_confirmed := s_confirmed r;
         si_expired := expired (utcnow w i) (s_last_updated r) |}
      :: saved_items w (S i) rest
  end.

Definition saved_finite (it : SavedItem) : bool :=
  match si_last_result it with
  | Some p => payload_finite p
  | None => true
  end.

Definition api_saved (w : World) (authorization : option Token)
  : H (list SavedItem) :=
  (token <- oauth2_scheme authorization ;;
   current <- get_current_user w token ;;
   rows <- gets (fun db =>
             filter (fun r => (s_user_id r =? u_id current)%Z) (searches db)) ;;
   let res := saved_items w 1 rows in
   json_response (forallb saved_finite res) res)%handler.

(** ** Sequences of requests *)

Inductive Request : Type :=
| Register (username password : string)
| Login (username password : string)
| Search (authorization : option Token) (card_name region : string)
| Refresh (authorization : option Token) (card_name : string)
| ConfirmImage (authorization : option Token) (card_name image_url : string)
| ListSaved (authorization : option Token).

(** The database after one request, whatever the response. *)
Definition handle (w : World) (rq : Request) (db : DB) : DB :=
  match rq with
  | Register u p => snd (register w u p db)
  | Login u p => snd (login_for_access_token w u p db)
  | Search a c r => snd (api_search w c r a db)
  | Refresh a c => snd (api_refresh w c a db)
  | ConfirmImage a c i => snd (api_confirm_image w c i a db)
  | ListSaved a => snd (api_saved w a db)
  end.

Fixpoint run (rqs : list (World * Request)) (db : DB) : DB :=
  match rqs with
  | [] => db
  | (w, rq) :: rest => run rest (handle w rq db)
  end.

End Backend.

Arguments Listing F : clear implicits.
Arguments Grades F : clear implicits.
Arguments Averages F : clear implicits.
Arguments Payload F : clear implicits.
Arguments SearchRow F : clear implicits.
Arguments SearchResponse F : clear implicits.
Arguments RefreshResponse F : clear implicits.
Arguments SavedItem F : clear implicits.
Arguments World F : clear implicits.
Arguments DB F : clear implicits.

(** ** Exact prices

    An instance of the price arithmetic over the rationals, with
    [round(x, 2)] rounding to the nearest hundredth and halves to the even
    neighbour.  It is the arithmetic the floats approximate, and the one the
    examples of this file run on. *)

Definition Qsum (v : list Q) : Q := fold_left Qplus v (0 # 1)%Q.

Definition Qdiv_nat (x : Q) (n : nat) : Q := (x / inject_Z (Z.of_nat n))%Q.

Definition round_half_even (n d : Z) : Z :=
  let f := (n / d)%Z in
  let r := (n mod d)%Z in
  if (2 * r <? d)%Z then f
  else if (d <? 2 * r)%Z then (f + 1)%Z
  else if Z.even f then f else (f + 1)%Z.

Definition Qround2 (x : Q) : Q :=
  (round_half_even (Qnum x * 100) (Z.pos (Qden x)) # 100)%Q.

#[export] Instance Q_prices : PriceArith Q := {|
  p_zero := (0 # 1)%Q;
  p_sum := Qsum;
  p_div := Qdiv_nat;
  p_round2 := Qround2;
  p_finite := fun _ => true;
  p_zero_finite := eq_refl
|}.

(** ** A small deployment for the examples *)

Module Demo.

Definition cfg : Config := {|
  EBAY_OAUTH_TOKEN := "ebay-token";
  GOOGLE_API_KEY := "google-key";
  GOOGLE_CX := "google-cx";
  JWT_SECRET_KEY := "change-me";
  ACCESS_TOKEN_EXPIRE_MINUTES := 60;
  pwd_hash := fun salt password => (salt ++ "$" ++ password)%string;
  pwd_verify := fun password hashed =>
                  String.eqb hashed ("s$" ++ password)%string
|}.

Definition listing (t : string) (p : option Q) (img : option string)
  : Listing Q :=
  {| title := Some t; price := p; image := img; thumbnailImages := [] |}.

Definition items : list (Listing Q) :=
  [ listing "Charizard PSA 10" (Some (100 # 1)%Q) None;
    listing "Charizard holo" None (Some "https://img/unpriced.jpg");
    listing "Charizard psa-9" (Some (50 # 1)%Q) (Some "https://img/psa9.jpg");
    listing "Charizard BGS 9.5" (Some (80 # 1)%Q) (Some "https://img/bgs.jpg");
    listing "Charizard PSA 8" (Some (25 # 3)%Q) None;
    listing "Charizard PSA 7" (Some (20 # 1)%Q) None;
    listing "Charizard base set" (Some (5 # 1)%Q) None ].

Definition day : Z := timedelta_days 1.

(** The marketplace answers with [items] in AU and with nothing in US. *)
Definition world (now : Time) : World Q := {|
  ebay := fun _ mp _ =>
    if String.eqb mp "EBAY_AU" then Response 200 (Some items)
    else Response 200 (Some []);
  google := fun _ => Response 200 (Some [Some "https://google/img.jpg"]);
  duckduckgo := fun _ => Response 200 (Some [Some "https://ddg/img.jpg"]);
  utcnow := fun _ => now;
  rate_limited := false;
  salt := "s"
|}.

(** The same, with the marketplace down. *)
Definition world_down (now : Time) : World Q := {|
  ebay := fun _ _ _ => Response 503 None;
  google := fun _ => Raised;
  duckduckgo := fun _ => Response 200 (Some [Some "https://ddg/img.jpg"]);
  utcnow := fun _ => now;
  rate_limited := false;
  salt := "s"
|}.

Definition ash : UserRow :=
  {| u_id := 1%Z; u_username := "ash"; u_password_hash := "s$pikachu" |}.

Definition ash_token : Token :=
  Jwt "change-me" {| sub := Some "ash"; exp := Some 1000000%Z |}.

Definition db_ash : DB Q := {| users := [ash]; searches := [] |}.

(** The database after ash has searched for "Charizard" in AU at time 0. *)
Definition db_searched : DB Q :=
  handle cfg (world 0%Z) (Search (Some ash_token) "Charizard" "AU") db_ash.

Definition chosen : string := "https://img/chosen.jpg".

(** ash registers, searches for "Charizard" and confirms an image. *)
Definition session : list (World Q * Request) :=
  [ (world 0%Z, Register "ash" "pikachu");
    (world 1%Z, Search (Some ash_token) "Charizard" "AU");
    (world 2%Z, ConfirmImage (Some ash_token) "Charizard" chosen) ].

Definition db_confirmed : DB Q := run cfg session empty_db.

Definition blank_row : SearchRow Q :=
  {| s_id := 0%Z; s_user_id := 0%Z; s_card_name := ""; s_region := "";
     s_last_result := None; s_last_image := None; s_last_updated := None;
     s_confirmed := false |}.

Definition searched_row : SearchRow Q :=
  Eval vm_compute in nth 0 (searches db_searched) blank_row.

Definition confirmed_row : SearchRow Q :=
  Eval vm_compute in nth 0 (searches db_confirmed) blank_row.

(** Two listings: the first has an image and a price that does not
    parse. *)
Definition unpriced_first : list (Listing Q) :=
  [ listing "Pikachu" None (Some "https://img/first.jpg");
    listing "Pikachu" (Some (10 # 1)%Q) (Some "https://img/second.jpg") ].

(** The same shape, the first image being a thumbnail. *)
Definition thumbnail_first : list (Listing Q) :=
  [ {| title := Some "Mew"; price := None; image := None;
       thumbnailImages := [Some "https://img/thumb.jpg"] |};
    listing "Mew" (Some (3 # 1)%Q) (Some "https://img/later.jpg") ].

Definition world_thumbnail : World Q := {|
  ebay := fun _ _ _ => Response 200 (Some thumbnail_first);
  google := fun _ => Response 200 (Some [Some "https://google/img.jpg"]);
  duckduckgo := fun _ => Response 200 (Some [Some "https://ddg/img.jpg"]);
  utcnow := fun _ => 0%Z;
  rate_limited := false;
  salt := "s"
|}.

End Demo.

(** * Vocabulary of the properties *)

(** The last character of a string, [prev] when it is empty. *)
Fixpoint last_char (prev : option ascii) (s : list ascii) : option ascii :=
  match s with
  | [] => prev
  | x :: t => last_char (Some x) t
  end.

(** A title has a grading token of a company when the company's pattern
    matches somewhere in the lower-cased title. *)
Definition has_token (abbr : string) (t : string) : bool :=
  search (grade_pattern abbr) (lower (list_ascii_of_string t)).

(** [s] does not end with a word character. *)
Definition ends_nonword (s : string) : Prop :=
  word_opt (last_char None (list_ascii_of_string s)) = false.

(** [s] does not start with a word character. *)
Definition starts_nonword (s : string) : Prop :=
  word_opt (hd_error (list_ascii_of_string s)) = false.

Definition contains (needle hay : string) : Prop :=
  exists pre post, hay = (pre ++ needle ++ post)%string.

Section Vocabulary.

Context {F : Type} {PA : PriceArith F}.

(** The listing reaches the body of the loop: its price parsed. *)
Definition priced (it : Listing F) : bool :=
  match price it with Some _ => true | None => false end.

(** The prices of the listings of a bucket, in the order of the list. *)
Definition bucket_prices (k : Grade) (items : list (Listing F)) : list F :=
  flat_map (fun it =>
              match price it with
              | Some p =>
                  if Grade_eqb (detect_grade_from_title (title it)) k
                  then [p] else []
              | None => []
              end) items.

(** The listing offers an image to the loop. *)
Definition offers_image (it : Listing F) : bool :=
  (priced it && truthy (listing_image it))%bool.

(** The buckets of the loop after the listings [seen]. *)
Definition loop_invariant (seen : list (Listing F)) (g : Grades F) : Prop :=
  forall k, bucket_of g k
            = firstn SEARCH_LIMIT_PER_GRADE (bucket_prices k seen).

Definition zero_averages : Averages F :=
  {| a_raw := p_zero; a_PSA := p_zero; a_CGC := p_zero; a_BGS := p_zero |}.

(** The marketplace call of a search raises or answers with an error
    status. *)
Definition marketplace_fails (w : World F) (keyword marketplace : string)
  : Prop :=
  ebay w keyword marketplace 50%Z = Raised
  \/ exists st body, ebay w keyword marketplace 50%Z = Response st body
                     /\ response_ok st = false.

(** The request passes the rate limiter and carries a token that
    resolves to the user [u]. *)
Definition authenticated (cfg : Config) (w : World F)
           (authorization : option Token) (db : DB F) (u : UserRow) : Prop :=
  rate_limited w = false
  /\ exists token, authorization = Some token
                   /\ get_current_user cfg w token db = (inr u, db).

(** The row of a user name. *)
Definition user_by_name (db : DB F) (username : string) : option UserRow :=
  find (fun u => String.eqb (u_username u) username) (users db).

Definition bad_credentials : HTTPException :=
  mkHTTPException 400 "Incorrect username or password".

(** The record of a user for a card. *)
Definition record_of (db : DB F) (u : UserRow) (card_name : string)
  : option (SearchRow F) :=
  find (search_key (u_id u) card_name) (searches db).

(** The payload a search or a refresh computes for a card and a region. *)
Definition payload_of (cfg : Config) (w : World F) (card_name region : string)
  : Payload F :=
  let grades := fst (fst (gather_prices_by_grade cfg w card_name region)) in
  {| avg := averages grades; prices := grades |}.

Definition image_of (cfg : Config) (w : World F) (card_name region : string)
  : string :=
  snd (fst (gather_prices_by_grade cfg w card_name region)).

(** The values written by a search or a refresh, and by a confirmation. *)
Definition with_result (p : Payload F) (img : string) (now : Time)
           (r : SearchRow F) : SearchRow F :=
  {| s_id := s_id r; s_user_id := s_user_id r;
     s_card_name := s_card_name r; s_region := s_region r;
     s_last_result := Some p; s_last_image := Some img;
     s_last_updated := Some now; s_confirmed := false |}.

Definition with_image (img : string) (now : Time) (r : SearchRow F)
  : SearchRow F :=
  {| s_id := s_id r; s_user_id := s_user_id r;
     s_card_name := s_card_name r; s_region := s_region r;
     s_last_result := s_last_result r; s_last_image := Some img;
     s_last_updated := Some now; s_confirmed := true |}.

(** A protected handler that does not get past its dependencies fails
    with 429 or 401 and leaves the database alone. *)
Definition rejected {A : Type} (res : (HTTPException + A) * DB F)
           (db : DB F) : Prop :=
  exists e, res = (inl e, db) /\ (status_of e = 429%Z \/ status_of e = 401%Z).

Definition not_found : HTTPException := mkHTTPException 404 "not found".

(** What a request does to the table of searches. *)
Definition confirmed_card (rq : Request) : option string :=
  match rq with
  | ConfirmImage _ card_name _ => Some card_name
  | _ => None
  end.

Inductive Effect (c : option string) (db db' : DB F) : Prop :=
| NoEffect :
    searches db' = searches db -> Effect c db db'
| Rewrites (u : UserRow) (card_name : string) (row : SearchRow F)
           (p : Payload F) (img : string) (now : Time) :
    record_of db u card_name = Some row ->
    searches db'
    = map (fun r => if (s_id r =? s_id row)%Z
                    then with_result p img now r else r) (searches db) ->
    Effect c db db'
| Inserts (new : SearchRow F) :
    s_id new = next_id (map (@s_id F) (searches db)) ->
    s_confirmed new = false ->
    searches db' = searches db ++ [new] ->
    Effect c db db'
| Confirms (u : UserRow) (card_name : string) (row : SearchRow F)
           (img : string) (now : Time) :
    c = Some card_name ->
    record_of db u card_name = Some row ->
    searches db'
    = map (fun r => if (s_id r =? s_id row)%Z
                    then with_image img now r else r) (searches db) ->
    Effect c db db'.

(** Primary keys are unique. *)
Definition unique_ids (db : DB F) : Prop := NoDup (map s_id (searches db)).

End Vocabulary.

(** * Vocabulary of the further properties *)

(** The grade pattern without its decimal part:
    [\b<abbr>[\s\-]?\d{1,2}\b]. *)
Definition grade_pattern_plain (abbr : string) : regex :=
  Cat WordB
      (lits (list_ascii_of_string abbr)
            (Cat (Opt (Cls is_sep))
                 (Cat (Cat (Cls is_digit) (Opt (Cls is_digit))) WordB))).

Definition too_many_requests : HTTPException :=
  mkHTTPException 429 "Too Many Requests".

Definition username_taken : HTTPException :=
  mkHTTPException 400 "Username taken".

Section MoreVocabulary.

Context {F : Type} {PA : PriceArith F}.

Definition usernames_unique (db : DB F) : Prop :=
  NoDup (map u_username (users db)).

Definition user_ids_unique (db : DB F) : Prop :=
  NoDup (map u_id (users db)).

(** The pair a record is looked up by. *)
Definition record_key (r : SearchRow F) : Z * string :=
  (s_user_id r, s_card_name r).

Definition keys_unique (db : DB F) : Prop :=
  NoDup (map record_key (searches db)).

(** The record carries a result, an image and a time stamp. *)
Definition complete (r : SearchRow F) : Prop :=
  s_last_result r <> None /\ s_last_image r <> None
  /\ s_last_updated r <> None.

(** The record belongs to a row of [users]. *)
Definition owned (db : DB F) (r : SearchRow F) : Prop :=
  exists u, In u (users db) /\ u_id u = s_user_id r.

(** The row a registration appends. *)
Definition new_user (cfg : Config) (w : World F) (db : DB F)
           (username password : string) : UserRow :=
  {| u_id := next_id (map u_id (users db));
     u_username := username;
     u_password_hash := pwd_hash cfg (salt w) password |}.

(** The row a first search appends. *)
Definition new_record (db : DB F) (u : UserRow) (card_name region : string)
           (p : Payload F) (img : string) (now : Time) : SearchRow F :=
  {| s_id := next_id (map (@s_id F) (searches db));
     s_user_id := u_id u; s_card_name := card_name; s_region := region;
     s_last_result := Some p; s_last_image := Some img;
     s_last_updated := Some now; s_confirmed := false |}.

(** The token of the request resolves to the user [u]; the rate limiter is
    left out. *)
Definition resolves (cfg : Config) (w : World F)
           (authorization : option Token) (db : DB F) (u : UserRow) : Prop :=
  exists token, authorization = Some token
                /\ get_current_user cfg w token db = (inr u, db).

(** The request carries no token, or one that does not resolve. *)
Definition unresolved (cfg : Config) (w : World F)
           (authorization : option Token) (db : DB F) : Prop :=
  forall u, ~ resolves cfg w authorization db u.

(** What one request does to the two tables. *)
Inductive Step (cfg : Config) (db db' : DB F) : Prop :=
| StepNone :
    db' = db -> Step cfg db db'
| StepUser (w : World F) (username password : string) :
    user_by_name db username = None ->
    db' = {| users := users db ++ [new_user cfg w db username password];
             searches := searches db |} ->
    Step cfg db db'
| StepResult (u : UserRow) (card_name : string) (row : SearchRow F)
             (p : Payload F) (img : string) (now : Time) :
    In u (users db) ->
    record_of db u card_name = Some row ->
    db' = {| users := users db;
             searches := map (fun r => if (s_id r =? s_id row)%Z
                                       then with_result p img now r else r)
                             (searches db) |} ->
    Step cfg db db'
| StepImage (u : UserRow) (card_name : string) (row : SearchRow F)
            (img : string) (now : Time) :
    In u (users db) ->
    record_of db u card_name = Some row ->
    db' = {| users := users db;
             searches := map (fun r => if (s_id r =? s_id row)%Z
                                       then with_image img now r else r)
                             (searches db) |} ->
    Step cfg db db'
| StepInsert (u : UserRow) (card_name region : string)
             (p : Payload F) (img : string) (now : Time) :
    In u (users db) ->
    record_of db u card_name = None ->
    db' = {| users := users db;
             searches := searches db
                         ++ [new_record db u card_name region p img now] |} ->
    Step cfg db db'.

(** The fields of a saved item that are copied from its record. *)
Definition item_fields (it : SavedItem F) :=
  (si_card_name it, si_region it, si_last_result it, si_last_image it,
   si_last_updated it, si_confirmed it).

Definition row_fields (r : SearchRow F) :=
  (s_card_name r, s_region r, s_last_result r, s_last_image r,
   s_last_updated r, s_confirmed r).

(** The effective life time of a token: a missing or zero delta stands for
    the configured number of minutes. *)
Definition effective_delta (cfg : Config) (expires_delta : option Z) : Z :=
  match expires_delta with
  | Some 0%Z | None => timedelta_minutes (ACCESS_TOKEN_EXPIRE_MINUTES cfg)
  | Some d => d
  end.

End MoreVocabulary.

(** * Properties *)

(** ** Strings and the matcher *)

Lemma list_ascii_of_string_app (a b : string) :
  list_ascii_of_string (a ++ b)%string
  = list_ascii_of_string a ++ list_ascii_of_string b.
Proof.
  induction a as [|c a IH]; simpl; [reflexivity | now rewrite IH].
Qed.

Lemma lower_app (a b : list ascii) : lower (a ++ b) = lower a ++ lower b.
Proof. unfold lower. apply map_app. Qed.

Lemma is_word_lower_char (c : ascii) : is_word (lower_char c) = is_word c.
Proof. destruct c as [[] [] [] [] [] [] [] []]; reflexivity. Qed.

Lemma word_opt_last_lower (s : list ascii) :
  forall prev p : option ascii,
    word_opt p = word_opt prev ->
    word_opt (last_char p (lower s)) = word_opt (last_char prev s).
Proof.
  induction s as [|x t IH]; intros prev p Hp; simpl.
  - exact Hp.
  - apply IH. simpl. apply is_word_lower_char.
Qed.

Lemma search_from_app (r : regex) (pre s : list ascii) (prev : option ascii) :
  rmatch r (last_char prev pre) s accept = true ->
  search_from r prev (pre ++ s) = true.
Proof.
  revert prev. induction pre as [|x t IH]; intros prev Hm; simpl in *.
  - destruct s; simpl; rewrite Hm; reflexivity.
  - rewrite (IH (Some x) Hm). apply orb_true_r.
Qed.

Lemma detect_grade_unfold (s : string) :
  detect_grade_from_title (Some s)
  = first_match patterns (lower (list_ascii_of_string s)).
Proof. destruct s; reflexivity. Qed.

(** The classifier by cases on the three searches, in the order of
    [patterns]. *)
Lemma detect_grade_priority (s : string) :
  detect_grade_from_title (Some s)
  = if has_token "psa" s then PSA
    else if has_token "bgs" s then BGS
    else if has_token "cgc" s then CGC
    else raw.
Proof. rewrite detect_grade_unfold. reflexivity. Qed.

Lemma hd_error_lower (s : list ascii) :
  word_opt (hd_error (lower s)) = word_opt (hd_error s).
Proof. destruct s; simpl; [reflexivity | apply is_word_lower_char]. Qed.

(** Runs the matcher at an occurrence whose neighbours are known. *)
Ltac run_pattern Hl Hh :=
  simpl; unfold at_boundary, accept; simpl hd_error;
  rewrite ?Hl, ?Hh; simpl;
  repeat rewrite ?orb_true_r, ?orb_true_l, ?andb_true_r, ?andb_true_l;
  try reflexivity.

Ltac at_occurrence pre post Hpre Hl Hh :=
  unfold has_token, search;
  rewrite !list_ascii_of_string_app, !lower_app;
  apply search_from_app;
  pose proof (word_opt_last_lower (list_ascii_of_string pre) None None
                                  eq_refl) as Hl;
  unfold ends_nonword in Hpre; rewrite Hpre in Hl;
  pose proof (hd_error_lower (list_ascii_of_string post)) as Hh.

Lemma has_token_psa_10 (pre post : string) :
  ends_nonword pre -> starts_nonword post ->
  has_token "psa" (pre ++ "PSA 10" ++ post) = true.
Proof.
  intros Hpre Hpost. at_occurrence pre post Hpre Hl Hh.
  unfold starts_nonword in Hpost. rewrite Hpost in Hh.
  run_pattern Hl Hh.
Qed.

Lemma has_token_bgs_9_5 (pre post : string) :
  ends_nonword pre ->
  has_token "bgs" (pre ++ "BGS 9.5" ++ post) = true.
Proof.
  intros Hpre. at_occurrence pre post Hpre Hl Hh.
  run_pattern Hl Hh.
Qed.

Lemma has_token_cgc_8 (pre post : string) :
  ends_nonword pre -> starts_nonword post ->
  has_token "cgc" (pre ++ "CGC-8" ++ post) = true.
Proof.
  intros Hpre Hpost. at_occurrence pre post Hpre Hl Hh.
  unfold starts_nonword in Hpost. rewrite Hpost in Hh.
  run_pattern Hl Hh.
Qed.

(** ** Rounding in the exact instance *)

Lemma round_half_even_nearest (n d : Z) :
  (0 < d)%Z ->
  (2 * Z.abs (round_half_even n d * d - n) <= d)%Z.
Proof.
  intros Hd. unfold round_half_even.
  pose proof (Z.div_mod n d ltac:(lia)) as Hdm.
  pose proof (Z.mod_pos_bound n d Hd) as Hr.
  destruct (Z.ltb_spec (2 * (n mod d)) d) as [H1|H1];
    [| destruct (Z.ltb_spec d (2 * (n mod d))) as [H2|H2];
       [| destruct (Z.even (n / d))]]; nia.
Qed.

(** [Qround2 x] is a number of hundredths at most half a hundredth away
    from [x]. *)
Lemma Qround2_nearest (x : Q) :
  (Qabs (Qround2 x - x) <= 1 # 200)%Q /\ Qden (Qround2 x) = 100%positive.
Proof.
  split; [| reflexivity].
  apply Qabs_Qle_condition. unfold Qround2.
  pose proof (round_half_even_nearest (Qnum x * 100) (Z.pos (Qden x))
                                      ltac:(lia)) as Hn.
  destruct x as [n d]. cbn [Qnum Qden] in *.
  set (c := round_half_even (n * 100) (Z.pos d)) in *.
  unfold Qle, Qminus, Qplus, Qopp; cbn [Qnum Qden].
  split; nia.
Qed.

(** ** The aggregation loop *)

Section Aggregation.

Context {F : Type} {PA : PriceArith F}.
Variable cfg : Config.

Implicit Types (items pre post : list (Listing F)) (it : Listing F).
Implicit Types (g : Grades F) (k : Grade).

Lemma bucket_of_append_price g b p k :
  bucket_of (append_price g b p) k
  = if Grade_eqb b k then bucket_of g k ++ [p] else bucket_of g k.
Proof. destruct b, k; reflexivity. Qed.

Lemma firstn_snoc_capped (n : nat) (l : list F) (p : F) :
  firstn n (l ++ [p])
  = if Nat.ltb (List.length (firstn n l)) n then firstn n l ++ [p]
    else firstn n l.
Proof.
  rewrite firstn_app, length_firstn.
  destruct (Nat.ltb_spec (Nat.min n (List.length l)) n) as [Hlt|Hge].
  - assert (Hl : (List.length l < n)%nat) by lia.
    rewrite (firstn_all2 l) by lia.
    rewrite firstn_all2; [reflexivity | simpl; lia].
  - replace (n - List.length l)%nat with 0%nat by lia.
    simpl. apply app_nil_r.
Qed.

Lemma bucket_prices_app k items1 items2 :
  bucket_prices k (items1 ++ items2)
  = bucket_prices k items1 ++ bucket_prices k items2.
Proof. unfold bucket_prices. apply flat_map_app. Qed.

Lemma gather_step_invariant seen g img it :
  loop_invariant seen g ->
  loop_invariant (seen ++ [it]) (fst (gather_step (g, img) it)).
Proof.
  intros Hinv k. rewrite bucket_prices_app. unfold gather_step.
  unfold bucket_prices at 2. simpl flat_map. rewrite app_nil_r.
  destruct (price it) as [p|]; simpl fst.
  - set (b := detect_grade_from_title (title it)).
    destruct (Grade_eqb b k) eqn:Hbk.
    + assert (b = k) by (destruct b, k; simpl in Hbk; congruence). subst k.
      rewrite firstn_snoc_capped, <- (Hinv b).
      destruct (Nat.ltb _ _).
      * rewrite bucket_of_append_price, Hbk. reflexivity.
      * reflexivity.
    + rewrite app_nil_r, <- (Hinv k).
      destruct (Nat.ltb _ _); [| reflexivity].
      rewrite bucket_of_append_price, Hbk. reflexivity.
  - rewrite app_nil_r. apply Hinv.
Qed.

Lemma fold_gather_invariant items :
  forall seen g img,
    loop_invariant seen g ->
    loop_invariant (seen ++ items)
                   (fst (fold_left gather_step items (g, img))).
Proof.
  induction items as [|it rest IH]; intros seen g img Hinv;
    cbn [fold_left].
  - rewrite app_nil_r. exact Hinv.
  - replace (seen ++ it :: rest) with ((seen ++ [it]) ++ rest)
      by (rewrite <- app_assoc; reflexivity).
    destruct (gather_step (g, img) it) as [g' img'] eqn:Hs.
    apply IH. change g' with (fst (g', img')). rewrite <- Hs.
    apply gather_step_invariant, Hinv.
Qed.

Lemma gather_loop_buckets items k :
  bucket_of (fst (gather_loop items)) k
  = firstn SEARCH_LIMIT_PER_GRADE (bucket_prices k items).
Proof.
  unfold gather_loop.
  apply (fold_gather_invariant items [] empty_grades None).
  intros k'. destruct k'; reflexivity.
Qed.

Lemma average_of_averages g k :
  average_of (averages g) k = average (bucket_of g k).
Proof. destruct k; reflexivity. Qed.

(** The image held by the loop: once set it stays, until then the first
    offer is taken. *)
Lemma truthy_offer it :
  offers_image it = true -> truthy (listing_image it) = true.
Proof. unfold offers_image. intros H. apply andb_prop in H. tauto. Qed.

Lemma gather_step_unpriced (st : Grades F * option string) it :
  price it = None -> gather_step st it = st.
Proof. intros H. destruct st. unfold gather_step. rewrite H. reflexivity. Qed.

Lemma gather_step_no_offer g img it :
  offers_image it = false -> snd (gather_step (g, img) it) = img.
Proof.
  unfold offers_image, priced, gather_step. intros H.
  destruct (price it); simpl in *; [| reflexivity].
  rewrite H. destruct (negb (truthy img)); reflexivity.
Qed.

Lemma gather_step_offer g img it :
  offers_image it = true ->
  snd (gather_step (g, img) it)
  = if truthy img then img else listing_image it.
Proof.
  unfold offers_image, priced, gather_step. intros H.
  destruct (price it); simpl in *; [| discriminate].
  rewrite H. destruct (truthy img); reflexivity.
Qed.

Lemma fold_gather_image_set items :
  forall g img,
    truthy img = true ->
    snd (fold_left gather_step items (g, img)) = img.
Proof.
  induction items as [|it rest IH]; intros g img Ht; cbn [fold_left];
    [reflexivity|].
  destruct (gather_step (g, img) it) as [g' img'] eqn:Hs.
  assert (img' = img) as ->.
  { change img' with (snd (g', img')). rewrite <- Hs.
    destruct (offers_image it) eqn:Ho.
    - rewrite gather_step_offer, Ht by exact Ho. reflexivity.
    - apply gather_step_no_offer, Ho. }
  apply IH, Ht.
Qed.

Lemma fold_gather_image_none items :
  forall g img,
    truthy img = false ->
    Forall (fun it => offers_image it = false) items ->
    snd (fold_left gather_step items (g, img)) = img.
Proof.
  induction items as [|it rest IH]; intros g img Ht Hall; cbn [fold_left];
    [reflexivity|].
  inversion Hall as [|? ? Hit Hrest]; subst.
  destruct (gather_step (g, img) it) as [g' img'] eqn:Hs.
  assert (img' = img) as ->.
  { change img' with (snd (g', img')). rewrite <- Hs.
    apply gather_step_no_offer, Hit. }
  apply IH; assumption.
Qed.

Lemma fold_gather_image_first pre it post :
  forall g img,
    truthy img = false ->
    Forall (fun x => offers_image x = false) pre ->
    offers_image it = true ->
    snd (fold_left gather_step (pre ++ it :: post) (g, img))
    = listing_image it.
Proof.
  intros g img Ht Hpre Hit. rewrite fold_left_app. cbn [fold_left].
  destruct (fold_left gather_step pre (g, img)) as [g1 img1] eqn:H1.
  assert (img1 = img) as ->.
  { change img1 with (snd (g1, img1)). rewrite <- H1.
    apply fold_gather_image_none; assumption. }
  destruct (gather_step (g1, img) it) as [g2 img2] eqn:H2.
  assert (img2 = listing_image it) as ->.
  { change img2 with (snd (g2, img2)). rewrite <- H2.
    rewrite gather_step_offer, Ht by exact Hit. reflexivity. }
  apply fold_gather_image_set, truthy_offer, Hit.
Qed.

Lemma gather_loop_unpriced pre it post :
  price it = None ->
  gather_loop (pre ++ it :: post) = gather_loop (pre ++ post).
Proof.
  intros H. unfold gather_loop. rewrite !fold_left_app. cbn [fold_left].
  rewrite gather_step_unpriced by exact H. reflexivity.
Qed.

(** [gather_prices_by_grade] in terms of the loop. *)
Lemma gather_prices_by_grade_unfold (w : World F) (card_name region : string) :
  gather_prices_by_grade cfg w card_name region
  = let r := ebay_search_items cfg w card_name (marketplace_of region) 50 in
    let st := gather_loop (fst r) in
    if truthy (snd st)
    then (fst st, str_of (snd st), snd r)
    else (fst st, fst (image_fallback cfg w card_name),
          snd r ++ snd (image_fallback cfg w card_name)).
Proof.
  unfold gather_prices_by_grade.
  destruct (ebay_search_items cfg w card_name (marketplace_of region) 50)
    as [its c1].
  simpl. destruct (gather_loop its) as [g img]. simpl.
  destruct (truthy img); simpl; [reflexivity|].
  destruct (image_fallback cfg w card_name); reflexivity.
Qed.

Lemma image_fallback_unfold (w : World F) (card_name : string) :
  image_fallback cfg w card_name
  = let g := google_image_search cfg w card_name in
    let d := duckduckgo_image w card_name in
    if truthy (fst g) then (str_of (fst g), snd g)
    else ((if truthy (fst d) then str_of (fst d) else ""),
          snd g ++ [CallDuckDuckGo card_name]).
Proof.
  unfold image_fallback.
  destruct (google_image_search cfg w card_name) as [g cg]. simpl.
  destruct (truthy g); [reflexivity|].
  unfold duckduckgo_image, por. simpl.
  destruct (truthy _); reflexivity.
Qed.

Lemma ebay_search_items_fails (w : World F) (keyword marketplace : string) :
  marketplace_fails w keyword marketplace ->
  fst (ebay_search_items cfg w keyword marketplace 50) = [].
Proof.
  unfold ebay_search_items. intros [H | (st & body & H & Hst)];
    destruct (String.eqb _ _); try reflexivity; rewrite H; simpl.
  - reflexivity.
  - destruct body; [rewrite Hst|]; reflexivity.
Qed.

End Aggregation.

(** ** Handlers *)

Section Handlers.

Context {F : Type} {PA : PriceArith F}.
Variable cfg : Config.

Implicit Types (w : World F) (db : DB F) (u : UserRow) (r : SearchRow F).
Implicit Types (card_name region : string) (authorization : option Token).

Lemma get_current_user_state w token db :
  snd (get_current_user cfg w token db) = db.
Proof.
  unfold get_current_user.
  destruct (jwt_decode _ _ _) as [c|]; [| reflexivity].
  destruct (sub c); [| reflexivity].
  unfold bind, fetch_user, gets. destruct (find _ _); reflexivity.
Qed.

Lemma get_current_user_error w token db e db' :
  get_current_user cfg w token db = (inl e, db') ->
  e = credentials_exception.
Proof.
  unfold get_current_user.
  destruct (jwt_decode _ _ _) as [c|]; [| unfold raise; congruence].
  destruct (sub c); [| unfold raise; congruence].
  unfold bind, fetch_user, gets, raise, ret.
  destruct (find _ _); congruence.
Qed.

(** The dependencies that open every protected handler. *)
Lemma enter_authenticated {A : Type} (h : UserRow -> H A)
      w authorization db u :
  authenticated cfg w authorization db u ->
  (rate_limiter w ;;;
   token <- oauth2_scheme authorization ;;
   current <- get_current_user cfg w token ;;
   h current)%handler db
  = h u db.
Proof.
  intros (Hrl & token & -> & Hg).
  unfold bind, rate_limiter, oauth2_scheme, raise, ret.
  rewrite Hrl. cbv beta iota. rewrite Hg. reflexivity.
Qed.

Lemma enter_cases w authorization db :
  (exists u, authenticated cfg w authorization db u)
  \/ (forall (A : Type) (h : UserRow -> H A),
         rejected ((rate_limiter w ;;;
                    token <- oauth2_scheme authorization ;;
                    current <- get_current_user cfg w token ;;
                    h current)%handler db) db).
Proof.
  destruct (rate_limited w) eqn:Hrl.
  { right. intros A h. unfold bind, rate_limiter, raise. rewrite Hrl.
    eexists. split; [reflexivity | left; reflexivity]. }
  destruct authorization as [token|].
  2:{ right. intros A h. unfold bind, rate_limiter, oauth2_scheme, raise, ret.
      rewrite Hrl. eexists. split; [reflexivity | right; reflexivity]. }
  pose proof (get_current_user_state w token db) as Hst.
  destruct (get_current_user cfg w token db) as [[e|u] db1] eqn:Hg;
    cbn [snd] in Hst; subst db1.
  - right. intros A h. unfold bind, rate_limiter, oauth2_scheme, raise, ret.
    rewrite Hrl. cbv beta iota. rewrite Hg.
    exists e. split; [reflexivity|]. right.
    rewrite (get_current_user_error _ _ _ _ _ Hg). reflexivity.
  - left. exists u. split; [exact Hrl|]. exists token. split;
      [reflexivity | exact Hg].
Qed.

Lemma authenticated_dec w authorization db :
  (exists u, authenticated cfg w authorization db u)
  \/ (forall u, ~ authenticated cfg w authorization db u).
Proof.
  destruct (enter_cases w authorization db) as [Hu | Hrej]; [left; exact Hu|].
  right. intros u Hu.
  pose proof (enter_authenticated (fun c => ret c) w authorization db u Hu)
    as Hok.
  destruct (Hrej _ (fun c => ret c)) as (e & He & _).
  pose proof (eq_trans (eq_sym He) Hok) as Habs. discriminate Habs.
Qed.

Lemma api_search_authenticated w card_name region authorization db u :
  authenticated cfg w authorization db u ->
  api_search cfg w card_name region authorization db
  = (if payload_finite (payload_of cfg w card_name region)
     then inr {| sr_result := payload_of cfg w card_name region;
                 sr_image := image_of cfg w card_name region |}
     else inl (mkHTTPException 500 "Internal Server Error"),
     snd (match record_of db u card_name with
          | Some e =>
              update_search (s_id e)
                (with_result (payload_of cfg w card_name region)
                             (image_of cfg w card_name region)
                             (utcnow w 1)) db
          | None =>
              insert_search (u_id u) card_name region
                (payload_of cfg w card_name region)
                (image_of cfg w card_name region) (utcnow w 1) db
          end)).
Proof.
  intros Hauth. unfold api_search.
  rewrite (enter_authenticated _ _ _ _ _ Hauth).
  unfold payload_of, image_of, record_of.
  destruct (gather_prices_by_grade cfg w card_name region)
    as [[grades img] calls].
  cbn [fst snd]. unfold bind, fetch_search, gets.
  destruct (find _ _) as [e|];
    unfold update_search, insert_search, modify, json_response,
      ret, raise; cbn [fst snd];
    destruct (payload_finite _); reflexivity.
Qed.

Lemma api_search_rejected w card_name region authorization db :
  (forall u, ~ authenticated cfg w authorization db u) ->
  rejected (api_search cfg w card_name region authorization db) db.
Proof.
  intros Hno. destruct (enter_cases w authorization db) as [[u Hu]|Hrej].
  - destruct (Hno u Hu).
  - apply Hrej.
Qed.

Lemma api_refresh_authenticated w card_name authorization db u :
  authenticated cfg w authorization db u ->
  api_refresh cfg w card_name authorization db
  = match record_of db u card_name with
    | None => (inl not_found, db)
    | Some row =>
        let p := payload_of cfg w card_name (s_region row) in
        let img := image_of cfg w card_name (s_region row) in
        (if averages_finite (avg p)
         then inr {| rr_avg := avg p; rr_image := img |}
         else inl (mkHTTPException 500 "Internal Server Error"),
         snd (update_search (s_id row) (with_result p img (utcnow w 1)) db))
    end.
Proof.
  intros Hauth. unfold api_refresh.
  rewrite (enter_authenticated _ _ _ _ _ Hauth).
  unfold payload_of, image_of, record_of, bind, fetch_search, gets.
  destruct (find _ _) as [row|]; [| reflexivity].
  destruct (gather_prices_by_grade cfg w card_name (s_region row))
    as [[grades img] calls].
  cbn [fst snd].
  unfold update_search, modify, json_response, ret, raise;
    cbn [fst snd avg].
  destruct (averages_finite _); reflexivity.
Qed.

Lemma api_refresh_rejected w card_name authorization db :
  (forall u, ~ authenticated cfg w authorization db u) ->
  rejected (api_refresh cfg w card_name authorization db) db.
Proof.
  intros Hno. destruct (enter_cases w authorization db) as [[u Hu]|Hrej].
  - destruct (Hno u Hu).
  - apply Hrej.
Qed.

Lemma api_confirm_image_authenticated
      w card_name image_url authorization db u :
  authenticated cfg w authorization db u ->
  api_confirm_image cfg w card_name image_url authorization db
  = match record_of db u card_name with
    | None => (inl not_found, db)
    | Some row =>
        update_search (s_id row) (with_image image_url (utcnow w 1)) db
    end.
Proof.
  intros Hauth. unfold api_confirm_image.
  rewrite (enter_authenticated _ _ _ _ _ Hauth).
  unfold record_of, bind, fetch_search, gets.
  destruct (find _ _) as [row|]; reflexivity.
Qed.

Lemma api_confirm_image_rejected w card_name image_url authorization db :
  (forall u, ~ authenticated cfg w authorization db u) ->
  rejected (api_confirm_image cfg w card_name image_url authorization db) db.
Proof.
  intros Hno. destruct (enter_cases w authorization db) as [[u Hu]|Hrej].
  - destruct (Hno u Hu).
  - apply Hrej.
Qed.

(** *** Rows *)

Lemma search_key_true user_id card_name r :
  search_key user_id card_name r = true ->
  s_user_id r = user_id /\ s_card_name r = card_name.
Proof.
  unfold search_key. intros H. apply andb_prop in H. destruct H as [H1 H2].
  split; [apply Z.eqb_eq, H1 | apply String.eqb_eq, H2].
Qed.

Lemma record_of_key db u card_name r :
  record_of db u card_name = Some r ->
  In r (searches db) /\ s_user_id r = u_id u /\ s_card_name r = card_name.
Proof.
  unfold record_of. intros H. apply find_some in H. destruct H as [Hin Hk].
  split; [exact Hin | apply search_key_true, Hk].
Qed.

Lemma find_update (key : SearchRow F -> bool) (f : SearchRow F -> SearchRow F)
      (rows : list (SearchRow F)) r0 :
  (forall r, key (f r) = key r) ->
  find key rows = Some r0 ->
  find key (map (fun r => if (s_id r =? s_id r0)%Z then f r else r) rows)
  = Some (f r0).
Proof.
  intros Hkey. induction rows as [|x rest IH]; simpl; [discriminate|].
  destruct (key x) eqn:Hx.
  - intros [= ->]. rewrite Z.eqb_refl, Hkey, Hx. reflexivity.
  - intros Hf.
    assert (Hx' : key (if (s_id x =? s_id r0)%Z then f x else x) = false)
      by (destruct (s_id x =? s_id r0)%Z; [rewrite Hkey|]; exact Hx).
    rewrite Hx'. apply IH, Hf.
Qed.

Lemma find_app_new (key : SearchRow F -> bool)
      (rows : list (SearchRow F)) new :
  find key rows = None -> key new = true ->
  find key (rows ++ [new]) = Some new.
Proof.
  intros Hn Hk. induction rows as [|x rest IH]; simpl in *.
  - rewrite Hk. reflexivity.
  - destruct (key x); [discriminate | apply IH, Hn].
Qed.

Lemma in_update (f : SearchRow F -> SearchRow F) (id : Z)
      (rows : list (SearchRow F)) r' :
  In r' (map (fun r => if (s_id r =? id)%Z then f r else r) rows) ->
  In r' rows \/ exists x, In x rows /\ s_id x = id /\ r' = f x.
Proof.
  intros H. apply in_map_iff in H. destruct H as (x & Hx & Hin).
  destruct (s_id x =? id)%Z eqn:Hid.
  - right. exists x. apply Z.eqb_eq in Hid. auto.
  - left. subst r'. exact Hin.
Qed.

Lemma update_keeps_others (f : SearchRow F -> SearchRow F) (id : Z)
      (rows : list (SearchRow F)) r :
  In r rows -> s_id r <> id ->
  In r (map (fun r => if (s_id r =? id)%Z then f r else r) rows).
Proof.
  intros Hin Hne. apply in_map_iff. exists r. split; [| exact Hin].
  apply Z.eqb_neq in Hne. rewrite Hne. reflexivity.
Qed.

Lemma map_id_update (f : SearchRow F -> SearchRow F) (id : Z)
      (rows : list (SearchRow F)) :
  (forall r, s_id (f r) = s_id r) ->
  map s_id (map (fun r => if (s_id r =? id)%Z then f r else r) rows)
  = map s_id rows.
Proof.
  intros Hf. rewrite map_map. apply map_ext. intros r.
  destruct (s_id r =? id)%Z; [apply Hf | reflexivity].
Qed.

Lemma fold_max_bound (ids : list Z) (x : Z) :
  In x ids -> (x <= fold_right Z.max 0 ids)%Z.
Proof.
  induction ids as [|y rest IH]; simpl; [tauto|].
  intros [-> | Hin]; [lia | specialize (IH Hin); lia].
Qed.

Lemma next_id_fresh (ids : list Z) : ~ In (next_id ids) ids.
Proof.
  intros Hin. apply fold_max_bound in Hin. unfold next_id in Hin. lia.
Qed.

Lemma NoDup_snoc (l : list Z) (a : Z) :
  NoDup l -> ~ In a l -> NoDup (l ++ [a]).
Proof.
  induction l as [|x rest IH]; simpl; intros Hnd Hnot.
  - constructor; [simpl; tauto | constructor].
  - inversion Hnd as [|? ? Hx Hrest]; subst. constructor.
    + rewrite in_app_iff. simpl. intros [H | [H | []]]; [tauto|].
      apply Hnot. left. symmetry. exact H.
    + apply IH; [exact Hrest | tauto].
Qed.

Lemma unique_row (rows : list (SearchRow F)) x y :
  NoDup (map (@s_id F) rows) ->
  In x rows -> In y rows -> s_id x = s_id y -> x = y.
Proof.
  induction rows as [|z rest IH]; simpl; [tauto|].
  intros Hnd Hx Hy Hid. inversion Hnd as [|? ? Hnotin Hnd']; subst.
  destruct Hx as [-> | Hx], Hy as [-> | Hy].
  - reflexivity.
  - exfalso. apply Hnotin. rewrite Hid. apply in_map, Hy.
  - exfalso. apply Hnotin. rewrite <- Hid. apply in_map, Hx.
  - apply IH; assumption.
Qed.

(** *** What each request does to the table of searches *)

Lemma rejected_db {A : Type} (res : (HTTPException + A) * DB F) db :
  rejected res db -> snd res = db.
Proof. intros (e & -> & _). reflexivity. Qed.

Lemma api_search_effect c w card_name region authorization db :
  Effect c db (snd (api_search cfg w card_name region authorization db)).
Proof.
  destruct (enter_cases w authorization db) as [[u Hu]|Hrej].
  - rewrite (api_search_authenticated _ _ _ _ _ _ Hu). cbn [snd].
    destruct (record_of db u card_name) as [e|] eqn:Hrec.
    + eapply Rewrites; [exact Hrec | reflexivity].
    + eapply Inserts;
        [| | unfold insert_search, modify; cbn [snd searches]; reflexivity];
        reflexivity.
  - apply NoEffect. unfold api_search.
    rewrite (rejected_db _ _ (Hrej _ _)). reflexivity.
Qed.

Lemma api_refresh_effect c w card_name authorization db :
  Effect c db (snd (api_refresh cfg w card_name authorization db)).
Proof.
  destruct (enter_cases w authorization db) as [[u Hu]|Hrej].
  - rewrite (api_refresh_authenticated _ _ _ _ _ Hu).
    destruct (record_of db u card_name) as [row|] eqn:Hrec.
    + eapply Rewrites; [exact Hrec | reflexivity].
    + apply NoEffect. reflexivity.
  - apply NoEffect. unfold api_refresh.
    rewrite (rejected_db _ _ (Hrej _ _)). reflexivity.
Qed.

(** A confirmation rewrites the record of its own card, or nothing. *)
Lemma api_confirm_image_effect w card_name image_url authorization db :
  let db' := snd (api_confirm_image cfg w card_name image_url
                                    authorization db) in
  searches db' = searches db
  \/ exists u row,
      record_of db u card_name = Some row
      /\ searches db'
         = map (fun r => if (s_id r =? s_id row)%Z
                         then with_image image_url (utcnow w 1) r else r)
               (searches db).
Proof.
  destruct (enter_cases w authorization db) as [[u Hu]|Hrej]; cbv zeta.
  - rewrite (api_confirm_image_authenticated _ _ _ _ _ _ Hu).
    destruct (record_of db u card_name) as [row|] eqn:Hrec.
    + right. exists u, row. split; [exact Hrec | reflexivity].
    + left. reflexivity.
  - left. unfold api_confirm_image.
    rewrite (rejected_db _ _ (Hrej _ _)). reflexivity.
Qed.

Lemma register_searches w username password db :
  searches (snd (register cfg w username password db)) = searches db.
Proof.
  unfold register, bind, rate_limiter, fetch_user, gets, insert_user,
    modify, raise, ret.
  destruct (rate_limited w); [reflexivity|]. cbv beta iota.
  destruct (find _ _); reflexivity.
Qed.

Lemma login_state w username password db :
  snd (login_for_access_token cfg w username password db) = db.
Proof.
  unfold login_for_access_token, bind, fetch_user, gets, raise, ret.
  destruct (find _ _) as [u|]; [| reflexivity].
  destruct (negb _); reflexivity.
Qed.

Lemma api_saved_state w authorization db :
  snd (api_saved cfg w authorization db) = db.
Proof.
  unfold api_saved, bind, oauth2_scheme, gets, json_response, raise, ret.
  destruct authorization as [token|]; [| reflexivity]. cbv beta iota.
  pose proof (get_current_user_state w token db) as Hst.
  destruct (get_current_user cfg w token db) as [[e|u] db1];
    cbn [snd] in Hst; subst db1; [reflexivity|].
  destruct (forallb _ _); reflexivity.
Qed.

Lemma handle_effect w rq db :
  Effect (confirmed_card rq) db (handle cfg w rq db).
Proof.
  destruct rq as [un pw | un pw | a c rg | a c | a c i | a]; cbn [handle].
  - apply NoEffect, register_searches.
  - apply NoEffect. rewrite login_state. reflexivity.
  - apply api_search_effect.
  - apply api_refresh_effect.
  - destruct (api_confirm_image_effect w c i a db) as [H | (u & row & Hr & H)].
    + apply NoEffect, H.
    + eapply Confirms; [reflexivity | exact Hr | exact H].
  - apply NoEffect. rewrite api_saved_state. reflexivity.
Qed.

Lemma handle_unique_ids w rq db :
  unique_ids db -> unique_ids (handle cfg w rq db).
Proof.
  unfold unique_ids. intros Hu.
  destruct (handle_effect w rq db) as [H | ? ? ? ? ? ? _ H | new Hid _ H
                                       | ? ? ? ? ? _ _ H]; rewrite H.
  - exact Hu.
  - rewrite map_id_update; [exact Hu | reflexivity].
  - rewrite map_app. simpl. apply NoDup_snoc; [exact Hu|].
    rewrite Hid. apply next_id_fresh.
  - rewrite map_id_update; [exact Hu | reflexivity].
Qed.

Lemma run_unique_ids rqs :
  forall db, unique_ids db -> unique_ids (run cfg rqs db).
Proof.
  induction rqs as [|[w rq] rest IH]; intros db Hu; cbn [run].
  - exact Hu.
  - apply IH, handle_unique_ids, Hu.
Qed.

End Handlers.

(** * The claims *)

Section Claims.

Context {F : Type} {PA : PriceArith F}.
Variable cfg : Config.

Implicit Types (w : World F) (db : DB F) (u : UserRow).
Implicit Types (r row : SearchRow F).

Lemma api_search_returns (w : World F) card_name region authorization db
      resp db' :
  api_search cfg w card_name region authorization db = (inr resp, db') ->
  sr_result resp = payload_of cfg w card_name region
  /\ sr_image resp = image_of cfg w card_name region.
Proof.
  intros Heq.
  destruct (authenticated_dec cfg w authorization db) as [[u Hu]|Hrej].
  - rewrite (api_search_authenticated _ _ _ _ _ _ _ Hu) in Heq.
    destruct (payload_finite _); [| discriminate].
    injection Heq as <- _. split; reflexivity.
  - destruct (api_search_rejected cfg w card_name region authorization db
                                  Hrej) as (e & He & _).
    rewrite He in Heq. discriminate.
Qed.

Lemma api_refresh_returns (w : World F) card_name authorization db resp db' :
  api_refresh cfg w card_name authorization db = (inr resp, db') ->
  exists u row,
    record_of db u card_name = Some row
    /\ rr_avg resp = avg (payload_of cfg w card_name (s_region row))
    /\ rr_image resp = image_of cfg w card_name (s_region row).
Proof.
  intros Heq.
  destruct (authenticated_dec cfg w authorization db) as [[u Hu]|Hrej].
  - rewrite (api_refresh_authenticated _ _ _ _ _ _ Hu) in Heq.
    destruct (record_of db u card_name) as [row|] eqn:Hrec; [| discriminate].
    exists u, row. split; [exact Hrec|]. cbv zeta in Heq.
    destruct (averages_finite _); [| discriminate].
    injection Heq as <- _. split; reflexivity.
  - destruct (api_refresh_rejected cfg w card_name authorization db Hrej)
      as (e & He & _).
    rewrite He in Heq. discriminate.
Qed.

(** C1. For every marketplace answer, each of the four buckets of
    [gather_prices_by_grade] holds at most 3 prices, namely the first 3
    parsed prices of the listings classified into it, in the order of the
    listings; its average is 0 when the bucket is empty and otherwise
    [round(sum(v)/len(v), 2)] of exactly that bucket; and these are the
    prices and averages that [api_search] and [api_refresh] return. *)
Theorem price_aggregation_buckets
        (w : World F) (card_name region : string) (k : Grade) :
  let items :=
    fst (ebay_search_items cfg w card_name (marketplace_of region) 50) in
  let grades := fst (fst (gather_prices_by_grade cfg w card_name region)) in
  let v := bucket_of grades k in
  (List.length v <= 3)%nat
  /\ v = firstn 3 (bucket_prices k items)
  /\ average_of (averages grades) k
     = match v with
       | [] => p_zero
       | _ :: _ => p_round2 (p_div (p_sum v) (List.length v))
       end
  /\ (forall authorization db resp db',
         api_search cfg w card_name region authorization db
         = (inr resp, db') ->
         bucket_of (prices (sr_result resp)) k = v
         /\ average_of (avg (sr_result resp)) k
            = average_of (averages grades) k)
  /\ (forall authorization db resp db',
         api_refresh cfg w card_name authorization db = (inr resp, db') ->
         exists row,
           In row (searches db)
           /\ average_of (rr_avg resp) k
              = average
                  (bucket_of
                     (fst (fst (gather_prices_by_grade
                                  cfg w card_name (s_region row)))) k)).
Proof.
  cbv zeta.
  assert (Hv : bucket_of
                 (fst (fst (gather_prices_by_grade cfg w card_name region))) k
               = firstn 3 (bucket_prices k
                   (fst (ebay_search_items cfg w card_name
                                           (marketplace_of region) 50)))).
  { rewrite gather_prices_by_grade_unfold. cbv zeta.
    destruct (truthy _); cbn [fst]; apply gather_loop_buckets. }
  split; [| split; [| split; [| split]]].
  - rewrite Hv. apply firstn_le_length.
  - exact Hv.
  - rewrite average_of_averages. unfold average.
    destruct (bucket_of _ k); reflexivity.
  - intros authorization db resp db' Heq.
    apply api_search_returns in Heq. destruct Heq as [-> _].
    split; reflexivity.
  - intros authorization db resp db' Heq.
    apply api_refresh_returns in Heq.
    destruct Heq as (u & row & Hrec & -> & _).
    exists row. split; [apply (record_of_key _ _ _ _ Hrec)|].
    unfold payload_of. cbn [avg]. apply average_of_averages.
Qed.

(** C3 (amended). A listing whose price fails numeric parsing is skipped
    as a whole: the loop ends in the same buckets and with the same image
    as on the list without that listing, so the listing contributes
    neither a price nor an image. *)
Theorem unpriced_listing_skipped (pre post : list (Listing F))
        (it : Listing F) :
  price it = None ->
  gather_loop (pre ++ it :: post) = gather_loop (pre ++ post).
Proof. apply gather_loop_unpriced. Qed.

Lemma no_image_call_ebay (w : World F) keyword marketplace limit c :
  In c (snd (ebay_search_items cfg w keyword marketplace limit)) ->
  c = CallEbay keyword marketplace limit.
Proof.
  unfold ebay_search_items. destruct (String.eqb _ _); simpl; [tauto|].
  intros [H | []]. symmetry. exact H.
Qed.

Lemma no_image_call_google (w : World F) card_name c :
  In c (snd (google_image_search cfg w card_name)) ->
  c = CallGoogle card_name.
Proof.
  unfold google_image_search. destruct (_ || _)%bool; simpl; [tauto|].
  intros [H | []]. symmetry. exact H.
Qed.

Lemma google_call_iff (w : World F) card_name :
  In (CallGoogle card_name) (snd (google_image_search cfg w card_name))
  <-> (String.eqb (GOOGLE_API_KEY cfg) ""
       || String.eqb (GOOGLE_CX cfg) "")%bool = false.
Proof.
  unfold google_image_search. destruct (_ || _)%bool; simpl.
  - split; [tauto | discriminate].
  - split; [reflexivity | intros _; left; reflexivity].
Qed.

(** C8 (amended). The image is that of the first listing whose price
    parses and that yields a non-empty image URL (primary image field, else
    first thumbnail): later listings are ignored and no image provider is
    queried.  When no such listing exists the image is the answer of the
    first provider when it is non-empty, else that of the second provider
    when it is non-empty, else the empty string; the second provider is
    queried exactly when the first returned nothing. *)
Theorem image_resolution (w : World F) (card_name region : string) :
  let r := ebay_search_items cfg w card_name (marketplace_of region) 50 in
  let img := image_of cfg w card_name region in
  let calls := snd (gather_prices_by_grade cfg w card_name region) in
  (forall pre it post,
      fst r = pre ++ it :: post ->
      Forall (fun x => offers_image x = false) pre ->
      offers_image it = true ->
      img = str_of (listing_image it) /\ calls = snd r)
  /\ (Forall (fun x => offers_image x = false) (fst r) ->
      let g := fst (google_image_search cfg w card_name) in
      let d := fst (duckduckgo_image w card_name) in
      img = (if truthy g then str_of g
             else if truthy d then str_of d else "")
      /\ (In (CallDuckDuckGo card_name) calls <-> truthy g = false)
      /\ (In (CallGoogle card_name) calls
          <-> (String.eqb (GOOGLE_API_KEY cfg) ""
               || String.eqb (GOOGLE_CX cfg) "")%bool = false))
  /\ (forall it : Listing F,
         listing_image it
         = if truthy (image it) then image it
           else hd None (thumbnailImages it)).
Proof.
  cbv zeta. unfold image_of. rewrite gather_prices_by_grade_unfold.
  cbv zeta. split; [| split].
  - intros pre it post Hitems Hpre Hit. rewrite Hitems. unfold gather_loop.
    rewrite fold_gather_image_first by (try reflexivity; assumption).
    rewrite (truthy_offer _ Hit). cbn [fst snd]. split; reflexivity.
  - intros Hall. unfold gather_loop.
    rewrite fold_gather_image_none by (try reflexivity; assumption).
    cbn [truthy fst snd]. rewrite image_fallback_unfold. cbv zeta.
    destruct (truthy (fst (google_image_search cfg w card_name))) eqn:Hg;
      cbn [fst snd].
    + split; [reflexivity | split; [split; [| discriminate] | split]].
      * intros Hin. apply in_app_or in Hin. destruct Hin as [Hin | Hin].
        -- apply no_image_call_ebay in Hin. discriminate.
        -- apply no_image_call_google in Hin. discriminate.
      * intros Hin. apply in_app_or in Hin. destruct Hin as [Hin | Hin].
        -- apply no_image_call_ebay in Hin. discriminate.
        -- apply google_call_iff in Hin. exact Hin.
      * intros Hk. apply in_or_app. right. apply google_call_iff, Hk.
    + split; [reflexivity | split; [split; [reflexivity|] | split]].
      * intros _.
        apply in_or_app. right. apply in_or_app. right. left. reflexivity.
      * intros Hin. apply in_app_or in Hin. destruct Hin as [Hin | Hin].
        -- apply no_image_call_ebay in Hin. discriminate.
        -- apply in_app_or in Hin. destruct Hin as [Hin | [Hin | []]].
           ++ apply google_call_iff in Hin. exact Hin.
           ++ discriminate.
      * intros Hk. apply in_or_app. right. apply in_or_app. left.
        apply google_call_iff, Hk.
  - intros it. unfold listing_image.
    destruct (truthy (image it)) eqn:Ht; rewrite ?Ht; simpl.
    + reflexivity.
    + destruct (thumbnailImages it); reflexivity.
Qed.

(** C7. When the marketplace call raises or answers with an error status,
    the pipeline still returns: the four buckets are empty, the averages
    are 0, the image comes from the image-search fallbacks, and
    [api_search] answers with exactly that unless the request was already
    refused by the rate limiter or the token check. *)
Theorem marketplace_failure_degrades
        (w : World F) (card_name region : string) :
  marketplace_fails w card_name (marketplace_of region) ->
  gather_prices_by_grade cfg w card_name region
  = (empty_grades, fst (image_fallback cfg w card_name),
     snd (ebay_search_items cfg w card_name (marketplace_of region) 50)
     ++ snd (image_fallback cfg w card_name))
  /\ averages empty_grades = zero_averages
  /\ (forall k, bucket_of (@empty_grades F) k = []
                /\ average_of (averages (@empty_grades F)) k = p_zero)
  /\ (forall authorization db,
         match fst (api_search cfg w card_name region authorization db) with
         | inr resp =>
             sr_result resp
             = {| avg := zero_averages; prices := empty_grades |}
             /\ sr_image resp = fst (image_fallback cfg w card_name)
         | inl e => status_of e = 429%Z \/ status_of e = 401%Z
         end).
Proof.
  intros Hfail.
  assert (Hg : gather_prices_by_grade cfg w card_name region
               = (empty_grades, fst (image_fallback cfg w card_name),
                  snd (ebay_search_items cfg w card_name
                                         (marketplace_of region) 50)
                  ++ snd (image_fallback cfg w card_name))).
  { rewrite gather_prices_by_grade_unfold. cbv zeta.
    rewrite (ebay_search_items_fails cfg _ _ _ Hfail). reflexivity. }
  split; [exact Hg | split; [reflexivity | split]].
  - intros k. destruct k; split; reflexivity.
  - intros authorization db.
    destruct (authenticated_dec cfg w authorization db) as [[u Hu]|Hrej].
    + rewrite (api_search_authenticated _ _ _ _ _ _ _ Hu).
      unfold payload_of, image_of. rewrite Hg. cbn [fst snd].
      unfold payload_finite, averages_finite, grades_finite.
      cbn. rewrite p_zero_finite. cbn. split; reflexivity.
    + destruct (api_search_rejected cfg w card_name region authorization db
                                    Hrej) as (e & -> & He).
      exact He.
Qed.

Lemma record_after_update db u card_name row
      (f : SearchRow F -> SearchRow F) :
  (forall r, s_user_id (f r) = s_user_id r) ->
  (forall r, s_card_name (f r) = s_card_name r) ->
  record_of db u card_name = Some row ->
  record_of (snd (update_search (s_id row) f db)) u card_name
  = Some (f row).
Proof.
  intros Hu Hc Hrec. unfold record_of, update_search, modify.
  cbn [snd searches]. apply find_update; [| exact Hrec].
  intros r. unfold search_key. rewrite Hu, Hc. reflexivity.
Qed.

Lemma record_after_insert db u card_name region p img now :
  record_of db u card_name = None ->
  exists r,
    record_of (snd (insert_search (u_id u) card_name region p img now db))
              u card_name = Some r
    /\ s_confirmed r = false /\ s_region r = region.
Proof.
  intros Hrec. eexists. split.
  - unfold record_of, insert_search, modify. cbn [snd searches].
    apply find_app_new; [exact Hrec|].
    unfold search_key. cbn. rewrite Z.eqb_refl, String.eqb_refl. reflexivity.
  - split; reflexivity.
Qed.

Lemma handle_confirmed_rows (w : World F) rq db r :
  unique_ids db ->
  In r (searches (handle cfg w rq db)) ->
  s_confirmed r = true ->
  In r (searches db)
  \/ exists a i, rq = ConfirmImage a (s_card_name r) i.
Proof.
  intros Huniq Hin Hconf.
  destruct (handle_effect cfg w rq db)
    as [H | u c row p img now _ H | new _ Hnew H | u c row img now Hc Hrec H];
    rewrite H in Hin.
  - left. exact Hin.
  - apply in_update in Hin. destruct Hin as [Hin | (x & _ & _ & ->)].
    + left. exact Hin.
    + discriminate Hconf.
  - apply in_app_or in Hin. destruct Hin as [Hin | [<- | []]].
    + left. exact Hin.
    + congruence.
  - apply in_update in Hin. destruct Hin as [Hin | (x & Hx & Hid & ->)].
    + left. exact Hin.
    + right. destruct (record_of_key _ _ _ _ Hrec) as (Hrow & _ & Hcard).
      assert (x = row) as -> by (apply (unique_row (searches db)); assumption).
      destruct rq; try discriminate Hc. injection Hc as ->.
      cbn [with_image s_card_name]. rewrite Hcard. eauto.
Qed.

Lemma run_confirmed_rows rqs :
  forall (db : DB F) r,
    unique_ids db ->
    In r (searches (run cfg rqs db)) ->
    s_confirmed r = true ->
    In r (searches db)
    \/ exists w a i, In (w, ConfirmImage a (s_card_name r) i) rqs.
Proof.
  induction rqs as [|[w rq] rest IH]; intros db r Huniq Hin Hconf;
    cbn [run] in Hin.
  - left. exact Hin.
  - destruct (IH _ r (handle_unique_ids cfg w rq db Huniq) Hin Hconf)
      as [Hin' | (w' & a & i & Hrest)].
    + destruct (handle_confirmed_rows w rq db r Huniq Hin' Hconf)
        as [Hdb | (a & i & ->)].
      * left. exact Hdb.
      * right. exists w, a, i. left. reflexivity.
    + right. exists w', a, i. right. exact Hrest.
Qed.

(** C5. A search that gets past authentication leaves the record of the
    card with [confirmed] false, and so does a refresh of an existing
    record; a record that is confirmed after a request was either already
    confirmed and left as it was, or the request is a confirm-image for the
    card of that record; a confirm-image request changes no stored
    [last_result]; and over any sequence of requests from the empty
    database a confirmed record has a confirm-image request for its card
    in the sequence. *)
Theorem confirmed_flag_discipline :
  (forall (w : World F) card_name region authorization db u,
      authenticated cfg w authorization db u ->
      exists r,
        record_of (snd (api_search cfg w card_name region authorization db))
                  u card_name = Some r
        /\ s_confirmed r = false)
  /\ (forall (w : World F) card_name authorization db u row,
         authenticated cfg w authorization db u ->
         record_of db u card_name = Some row ->
         exists r,
           record_of (snd (api_refresh cfg w card_name authorization db))
                     u card_name = Some r
           /\ s_confirmed r = false /\ s_id r = s_id row)
  /\ (forall (w : World F) rq db r,
         unique_ids db ->
         In r (searches (handle cfg w rq db)) ->
         s_confirmed r = true ->
         In r (searches db)
         \/ exists a i, rq = ConfirmImage a (s_card_name r) i)
  /\ (forall (w : World F) card_name image_url authorization db,
         map (fun r => (s_id r, s_last_result r))
             (searches (snd (api_confirm_image cfg w card_name image_url
                                               authorization db)))
         = map (fun r => (s_id r, s_last_result r)) (searches db))
  /\ (forall (rqs : list (World F * Request)) r,
         In r (searches (run cfg rqs empty_db)) ->
         s_confirmed r = true ->
         exists w a i, In (w, ConfirmImage a (s_card_name r) i) rqs).
Proof.
  split; [| split; [| split; [| split]]].
  - intros w card_name region authorization db u Hu.
    rewrite (api_search_authenticated _ _ _ _ _ _ _ Hu). cbn [snd].
    destruct (record_of db u card_name) as [e|] eqn:Hrec.
    + eexists. split.
      * apply record_after_update; [reflexivity | reflexivity | exact Hrec].
      * reflexivity.
    + destruct (record_after_insert db u card_name region
                  (payload_of cfg w card_name region)
                  (image_of cfg w card_name region) (utcnow w 1) Hrec)
        as (r & Hr & Hc & _).
      exists r. split; assumption.
  - intros w card_name authorization db u row Hu Hrec.
    rewrite (api_refresh_authenticated _ _ _ _ _ _ Hu), Hrec. cbn [snd].
    eexists. split.
    + apply record_after_update; [reflexivity | reflexivity | exact Hrec].
    + split; reflexivity.
  - intros w rq db r. apply handle_confirmed_rows.
  - intros w card_name image_url authorization db.
    destruct (api_confirm_image_effect cfg w card_name image_url
                                       authorization db)
      as [H | (u & row & _ & H)]; rewrite H; [reflexivity|].
    rewrite map_map. apply map_ext. intros r.
    destruct (s_id r =? s_id row)%Z; reflexivity.
  - intros rqs r Hin Hconf.
    destruct (run_confirmed_rows rqs empty_db r) as [[] | H];
      try assumption.
    constructor.
Qed.

(** C6. For an authenticated user without a record for the card, refresh
    and confirm-image both fail with the 404 error and leave the database
    as it was.  When the record exists, refresh runs the pipeline for the
    region stored in the record and writes result, image and time stamp
    into that record, with [confirmed] false; the region, the users and
    the other records stay. *)
Theorem refresh_and_confirm_need_a_record :
  status_of not_found = 404%Z
  /\ (forall (w : World F) card_name image_url authorization db u,
         authenticated cfg w authorization db u ->
         record_of db u card_name = None ->
         api_refresh cfg w card_name authorization db = (inl not_found, db)
         /\ api_confirm_image cfg w card_name image_url authorization db
            = (inl not_found, db))
  /\ (forall (w : World F) card_name authorization db u row,
         authenticated cfg w authorization db u ->
         record_of db u card_name = Some row ->
         let db' := snd (api_refresh cfg w card_name authorization db) in
         (exists r,
             record_of db' u card_name = Some r
             /\ s_last_result r
                = Some (payload_of cfg w card_name (s_region row))
             /\ s_last_image r
                = Some (image_of cfg w card_name (s_region row))
             /\ s_last_updated r = Some (utcnow w 1)
             /\ s_confirmed r = false
             /\ s_region r = s_region row
             /\ s_id r = s_id row)
         /\ users db' = users db
         /\ (forall r, In r (searches db) -> s_id r <> s_id row ->
                       In r (searches db'))).
Proof.
  split; [reflexivity | split].
  - intros w card_name image_url authorization db u Hu Hrec.
    rewrite (api_refresh_authenticated _ _ _ _ _ _ Hu),
      (api_confirm_image_authenticated _ _ _ _ _ _ _ Hu), Hrec.
    split; reflexivity.
  - intros w card_name authorization db u row Hu Hrec. cbv zeta.
    rewrite (api_refresh_authenticated _ _ _ _ _ _ Hu), Hrec. cbn [snd].
    split; [| split].
    + eexists. split.
      * apply record_after_update; [reflexivity | reflexivity | exact Hrec].
      * repeat split; reflexivity.
    + reflexivity.
    + intros r Hin Hne. unfold update_search, modify. cbn [snd searches].
      apply update_keeps_others; assumption.
Qed.

(** C10. A search for a card whose record exists leaves the region of the
    record as it was, whatever region the request names: the result stored
    and returned is computed for the requested region, and a later refresh
    computes its result for the region of the record. *)
Theorem search_keeps_stored_region
        (w : World F) (card_name region : string) authorization db u row :
  authenticated cfg w authorization db u ->
  record_of db u card_name = Some row ->
  let db' := snd (api_search cfg w card_name region authorization db) in
  (exists r,
      record_of db' u card_name = Some r
      /\ s_region r = s_region row
      /\ s_id r = s_id row
      /\ s_last_result r = Some (payload_of cfg w card_name region)
      /\ s_last_image r = Some (image_of cfg w card_name region)
      /\ s_last_updated r = Some (utcnow w 1)
      /\ s_confirmed r = false)
  /\ (forall resp,
         fst (api_search cfg w card_name region authorization db)
         = inr resp ->
         sr_result resp = payload_of cfg w card_name region)
  /\ (forall (w2 : World F) authorization2,
         authenticated cfg w2 authorization2 db' u ->
         exists r,
           record_of (snd (api_refresh cfg w2 card_name authorization2 db'))
                     u card_name = Some r
           /\ s_region r = s_region row
           /\ s_last_result r
              = Some (payload_of cfg w2 card_name (s_region row))).
Proof.
  intros Hu Hrec. cbv zeta.
  assert (Hrec' :
    record_of (snd (api_search cfg w card_name region authorization db))
              u card_name
    = Some (with_result (payload_of cfg w card_name region)
                        (image_of cfg w card_name region) (utcnow w 1) row)).
  { rewrite (api_search_authenticated _ _ _ _ _ _ _ Hu), Hrec. cbn [snd].
    apply record_after_update; [reflexivity | reflexivity | exact Hrec]. }
  split; [| split].
  - eexists. split; [exact Hrec' | repeat split; reflexivity].
  - intros resp Hresp.
    destruct (api_search cfg w card_name region authorization db)
      as [res db'] eqn:Heq.
    cbn [fst] in Hresp. subst res.
    apply (api_search_returns _ _ _ _ _ _ _ Heq).
  - intros w2 authorization2 Hu2.
    rewrite (api_refresh_authenticated _ _ _ _ _ _ Hu2), Hrec'. cbn [snd].
    eexists. split.
    + apply record_after_update; [reflexivity | reflexivity | exact Hrec'].
    + split; reflexivity.
Qed.

(** C9 (amended). A login with an unknown user name, or with a password
    that does not verify against the stored hash, fails with the 400 error
    "Incorrect username or password" and changes nothing.  With valid
    credentials it returns a bearer token signed with the secret key that
    carries the user name as subject and expires
    [ACCESS_TOKEN_EXPIRE_MINUTES] after the request; until then the token
    resolves to that user. *)
Theorem login_outcomes :
  status_of bad_credentials = 400%Z
  /\ (forall w username password db,
         user_by_name db username = None ->
         login_for_access_token cfg w username password db
         = (inl bad_credentials, db))
  /\ (forall w username password db u,
         user_by_name db username = Some u ->
         verify_password cfg password (u_password_hash u) = false ->
         login_for_access_token cfg w username password db
         = (inl bad_credentials, db))
  /\ (forall w username password db u,
         user_by_name db username = Some u ->
         verify_password cfg password (u_password_hash u) = true ->
         let expire :=
           seconds_of (utcnow w 0
                       + timedelta_minutes (ACCESS_TOKEN_EXPIRE_MINUTES cfg))%Z
         in
         let token :=
           Jwt (JWT_SECRET_KEY cfg)
               {| sub := Some username; exp := Some expire |} in
         login_for_access_token cfg w username password db
         = (inr {| access_token := token; token_type := "bearer" |}, db)
         /\ (forall w' : World F,
                (seconds_of (utcnow w' 0) <= expire)%Z ->
                get_current_user cfg w' token db = (inr u, db))).
Proof.
  split; [reflexivity | split; [| split]].
  - intros w username password db Hnone.
    unfold login_for_access_token, bind, fetch_user, gets.
    unfold user_by_name in Hnone. rewrite Hnone. reflexivity.
  - intros w username password db u Hsome Hbad.
    unfold login_for_access_token, bind, fetch_user, gets.
    unfold user_by_name in Hsome. rewrite Hsome, Hbad. reflexivity.
  - intros w username password db u Hsome Hok. cbv zeta.
    assert (Hname : u_username u = username).
    { unfold user_by_name in Hsome. apply find_some in Hsome.
      apply String.eqb_eq, Hsome. }
    split.
    + unfold login_for_access_token, bind, fetch_user, gets.
      unfold user_by_name in Hsome. rewrite Hsome, Hok.
      unfold create_access_token, jwt_encode, ret. cbn. rewrite Hname.
      reflexivity.
    + intros w' Hlive. unfold get_current_user, jwt_decode.
      rewrite String.eqb_refl. cbn [exp sub].
      destruct (Z.ltb_spec
                  (seconds_of (utcnow w 0 + timedelta_minutes
                                 (ACCESS_TOKEN_EXPIRE_MINUTES cfg))%Z)
                  (seconds_of (utcnow w' 0))) as [Hlt|_]; [lia|].
      cbn [sub]. unfold bind, fetch_user, gets. cbv beta.
      unfold user_by_name in Hsome. rewrite Hsome. reflexivity.
Qed.

Lemma saved_items_expired w rows :
  forall (i : nat) (it : SavedItem F),
    In it (saved_items w i rows) ->
    exists j, si_expired it = expired (utcnow w j) (si_last_updated it).
Proof.
  induction rows as [|r rest IH]; intros i it Hin; cbn [saved_items] in Hin.
  - destruct Hin.
  - destruct Hin as [<- | Hin].
    + exists i. reflexivity.
    + apply (IH (S i)), Hin.
Qed.

(** C4 (amended). The [expired] flag of a saved record is true exactly
    when [last_updated] is absent or strictly more than 7 days have passed
    since it: 8 days give true, 1 day gives false, and exactly 7 days give
    false.  Every record returned by [api_saved] carries the flag computed
    this way at a reading of the clock. *)
Theorem expiry_flag :
  (forall (now : Time) (last_updated : option Time),
      expired now last_updated = true
      <-> last_updated = None
          \/ exists t, last_updated = Some t
                       /\ (timedelta_days 7 < now - t)%Z)
  /\ (forall t : Time,
         expired (t + timedelta_days 8)%Z (Some t) = true
         /\ expired (t + timedelta_days 1)%Z (Some t) = false
         /\ expired (t + timedelta_days 7)%Z (Some t) = false)
  /\ (forall w authorization db (items : list (SavedItem F)) db',
         api_saved cfg w authorization db = (inr items, db') ->
         forall it, In it items ->
           exists i, si_expired it
                     = expired (utcnow w i) (si_last_updated it)).
Proof.
  split; [| split].
  - intros now [t|]; unfold expired; split.
    + intros H. right. exists t. split; [reflexivity|].
      apply Z.ltb_lt, H.
    + intros [H | (t' & [= <-] & H)]; [discriminate | apply Z.ltb_lt, H].
    + intros _. left. reflexivity.
    + reflexivity.
  - intros t. unfold expired.
    replace (t + timedelta_days 8 - t)%Z with (timedelta_days 8) by lia.
    replace (t + timedelta_days 1 - t)%Z with (timedelta_days 1) by lia.
    replace (t + timedelta_days 7 - t)%Z with (timedelta_days 7) by lia.
    repeat split; reflexivity.
  - intros w authorization db items db' Heq it Hin.
    unfold api_saved, bind, oauth2_scheme, gets, json_response, raise, ret
      in Heq.
    destruct authorization as [token|]; [| discriminate].
    cbv beta iota in Heq.
    destruct (get_current_user cfg w token db) as [[e|u] db1];
      [discriminate|].
    destruct (forallb _ _); [| discriminate].
    injection Heq as <- _.
    apply (saved_items_expired _ _ _ _ Hin).
Qed.

End Claims.

(** C2 (amended). A title in which "PSA 10" stands between non-word
    characters (or the ends of the title) is classified PSA; one in which
    "BGS 9.5" follows a non-word character (or starts the title) and that has
    no PSA token is classified BGS; one in which "CGC-8" stands between
    non-word characters and that has neither a PSA nor a BGS token is
    classified CGC; a title without any grading token, the empty title and
    the absent title are classified raw.  The three patterns are tried in
    the order PSA, BGS, CGC and the first that matches decides. *)
Theorem detect_grade_tokens :
  (forall pre post,
      ends_nonword pre -> starts_nonword post ->
      detect_grade_from_title (Some (pre ++ "PSA 10" ++ post)%string) = PSA)
  /\ (forall pre post,
         ends_nonword pre ->
         has_token "psa" (pre ++ "BGS 9.5" ++ post) = false ->
         detect_grade_from_title (Some (pre ++ "BGS 9.5" ++ post)%string) = BGS)
  /\ (forall pre post,
         ends_nonword pre -> starts_nonword post ->
         has_token "psa" (pre ++ "CGC-8" ++ post) = false ->
         has_token "bgs" (pre ++ "CGC-8" ++ post) = false ->
         detect_grade_from_title (Some (pre ++ "CGC-8" ++ post)%string) = CGC)
  /\ (forall t,
         has_token "psa" t = false -> has_token "bgs" t = false ->
         has_token "cgc" t = false ->
         detect_grade_from_title (Some t) = raw)
  /\ detect_grade_from_title None = raw
  /\ detect_grade_from_title (Some "") = raw
  /\ (forall t,
         detect_grade_from_title (Some t)
         = if has_token "psa" t then PSA
           else if has_token "bgs" t then BGS
           else if has_token "cgc" t then CGC
           else raw).
Proof.
  repeat split.
  - intros pre post Hpre Hpost.
    rewrite detect_grade_priority, has_token_psa_10 by assumption.
    reflexivity.
  - intros pre post Hpre Hpsa.
    rewrite detect_grade_priority, Hpsa, has_token_bgs_9_5 by assumption.
    reflexivity.
  - intros pre post Hpre Hpost Hpsa Hbgs.
    rewrite detect_grade_priority, Hpsa, Hbgs, has_token_cgc_8 by assumption.
    reflexivity.
  - intros t Hpsa Hbgs Hcgc.
    rewrite detect_grade_priority, Hpsa, Hbgs, Hcgc. reflexivity.
  - apply detect_grade_priority.
Qed.

(** ** The claims on the demo deployment *)

(** Discharges [authenticated] on the demo deployment by evaluation. *)
Ltac demo_auth :=
  split; [reflexivity | exists Demo.ash_token; split; reflexivity].

Lemma price_aggregation_buckets_witness :
  let w := Demo.world 0%Z in
  let resp := {| sr_result := payload_of Demo.cfg w "Charizard" "AU";
                 sr_image := image_of Demo.cfg w "Charizard" "AU" |} in
  api_search Demo.cfg w "Charizard" "AU" (Some Demo.ash_token) Demo.db_ash
  = (inr resp, Demo.db_searched)
  /\ bucket_of (prices (sr_result resp)) PSA
     = firstn 3 (bucket_prices PSA Demo.items)
  /\ (List.length (bucket_of (prices (sr_result resp)) PSA) <= 3)%nat.
Proof.
  cbv zeta.
  destruct (price_aggregation_buckets Demo.cfg (Demo.world 0%Z)
              "Charizard" "AU" PSA) as (Hlen & Hv & _ & Hs & _).
  assert (Heq : api_search Demo.cfg (Demo.world 0%Z) "Charizard" "AU"
                           (Some Demo.ash_token) Demo.db_ash
                = (inr {| sr_result :=
                            payload_of Demo.cfg (Demo.world 0%Z) "Charizard" "AU";
                          sr_image :=
                            image_of Demo.cfg (Demo.world 0%Z) "Charizard" "AU" |},
                   Demo.db_searched)) by (vm_compute; reflexivity).
  split; [exact Heq|].
  destruct (Hs _ _ _ _ Heq) as [Hb _]. rewrite Hb.
  split; [exact Hv | exact Hlen].
Defined.

Lemma detect_grade_tokens_witness :
  detect_grade_from_title (Some "Charizard PSA 10 holo") = PSA
  /\ detect_grade_from_title (Some "Charizard BGS 9.5x") = BGS
  /\ detect_grade_from_title (Some "CGC-8 Mewtwo") = CGC
  /\ detect_grade_from_title (Some "Charizard holo") = raw.
Proof.
  destruct detect_grade_tokens as (Hpsa & Hbgs & Hcgc & Hraw & _).
  split; [| split; [| split]].
  - apply (Hpsa "Charizard " " holo"); reflexivity.
  - apply (Hbgs "Charizard " "x"); reflexivity.
  - apply (Hcgc "" " Mewtwo"); reflexivity.
  - apply Hraw; reflexivity.
Defined.

(** C2, as stated, fails: "PSA 100" and "XPSA 10" contain "PSA 10" and are
    classified raw, "PSA 10 BGS 9.5" contains "BGS 9.5" and is classified
    PSA, "CGC-8x" contains "CGC-8" and is classified raw. *)
Lemma detect_grade_substring_counterexample :
  contains "PSA 10" "PSA 100"
  /\ detect_grade_from_title (Some "PSA 100") = raw
  /\ contains "PSA 10" "XPSA 10"
  /\ detect_grade_from_title (Some "XPSA 10") = raw
  /\ contains "BGS 9.5" "PSA 10 BGS 9.5"
  /\ detect_grade_from_title (Some "PSA 10 BGS 9.5") = PSA
  /\ contains "CGC-8" "CGC-8x"
  /\ detect_grade_from_title (Some "CGC-8x") = raw.
Proof.
  repeat split.
  - exists "", "0". reflexivity.
  - exists "X", "". reflexivity.
  - exists "PSA 10 ", "". reflexivity.
  - exists "", "x". reflexivity.
Qed.

Lemma unpriced_listing_skipped_witness :
  price (nth 1 Demo.items (Demo.listing "" None None)) = None
  /\ gather_loop Demo.items
     = gather_loop (firstn 1 Demo.items ++ skipn 2 Demo.items).
Proof.
  split; [reflexivity|].
  apply (unpriced_listing_skipped (firstn 1 Demo.items) (skipn 2 Demo.items)
           (nth 1 Demo.items (Demo.listing "" None None))).
  reflexivity.
Defined.

(** C3, as stated, fails: the first listing has an image and a price that
    does not parse, and the image of the result is that of the second
    listing. *)
Lemma unpriced_listing_image_counterexample :
  exists first second,
    Demo.unpriced_first = [first; second]
    /\ price first = None
    /\ listing_image first = Some "https://img/first.jpg"
    /\ snd (gather_loop Demo.unpriced_first) = Some "https://img/second.jpg"
    /\ snd (gather_loop Demo.unpriced_first) <> listing_image first.
Proof.
  eexists. eexists. split; [reflexivity|].
  repeat split. discriminate.
Qed.

Lemma expiry_flag_witness :
  expired (timedelta_days 8) (Some 0%Z) = true
  /\ (forall it,
         In it (saved_items (Demo.world (timedelta_days 8)) 1
                            (searches Demo.db_searched)) ->
         exists i, si_expired it
                   = expired (utcnow (Demo.world (timedelta_days 8)) i)
                             (si_last_updated it)).
Proof.
  destruct (expiry_flag Demo.cfg (F := Q)) as (Hiff & _ & Hsaved).
  split.
  - apply (proj2 (Hiff (timedelta_days 8) (Some 0%Z))).
    right. exists 0%Z. split; [reflexivity | reflexivity].
  - apply (Hsaved (Demo.world (timedelta_days 8)) (Some Demo.ash_token)
                  Demo.db_searched _ Demo.db_searched).
    vm_compute. reflexivity.
Defined.

(** C4, as stated, fails on its boundary: a record updated exactly 7 days
    ago is not expired. *)
Lemma expiry_boundary_counterexample :
  (timedelta_days 7 - 0 = timedelta_days SAVED_SEARCH_EXPIRY_DAYS)%Z
  /\ expired (timedelta_days 7) (Some 0%Z) = false
  /\ exists items,
      fst (api_saved Demo.cfg (Demo.world (timedelta_days 7))
                     (Some Demo.ash_token) Demo.db_searched) = inr items
      /\ map (@si_last_updated Q) items = [Some 0%Z]
      /\ map (@si_expired Q) items = [false].
Proof.
  split; [reflexivity | split; [reflexivity|]].
  eexists. split; [vm_compute; reflexivity | split; reflexivity].
Qed.

Lemma confirmed_flag_discipline_witness :
  (exists r,
      record_of (snd (api_search Demo.cfg (Demo.world 0%Z) "Charizard" "AU"
                                 (Some Demo.ash_token) Demo.db_ash))
                Demo.ash "Charizard" = Some r
      /\ s_confirmed r = false)
  /\ (exists r,
         record_of (snd (api_refresh Demo.cfg (Demo.world 5%Z) "Charizard"
                                     (Some Demo.ash_token) Demo.db_confirmed))
                   Demo.ash "Charizard" = Some r
         /\ s_confirmed r = false /\ s_id r = s_id Demo.confirmed_row)
  /\ (s_confirmed Demo.confirmed_row = true
      /\ exists w a i,
          In (w, ConfirmImage a (s_card_name Demo.confirmed_row) i)
             Demo.session).
Proof.
  destruct (confirmed_flag_discipline Demo.cfg (F := Q))
    as (Hsearch & Hrefresh & _ & _ & Hrun).
  split; [| split; [| split]].
  - apply Hsearch. demo_auth.
  - apply Hrefresh; [demo_auth | reflexivity].
  - reflexivity.
  - apply Hrun; [left; reflexivity | reflexivity].
Defined.

Lemma refresh_and_confirm_need_a_record_witness :
  (api_refresh Demo.cfg (Demo.world 0%Z) "Charizard" (Some Demo.ash_token)
               Demo.db_ash = (inl not_found, Demo.db_ash)
   /\ api_confirm_image Demo.cfg (Demo.world 0%Z) "Charizard" Demo.chosen
                        (Some Demo.ash_token) Demo.db_ash
      = (inl not_found, Demo.db_ash))
  /\ exists r,
      record_of (snd (api_refresh Demo.cfg (Demo.world_down 5%Z) "Charizard"
                                  (Some Demo.ash_token) Demo.db_searched))
                Demo.ash "Charizard" = Some r
      /\ s_last_result r
         = Some (payload_of Demo.cfg (Demo.world_down 5%Z) "Charizard" "AU")
      /\ s_last_image r = Some "https://ddg/img.jpg"
      /\ s_last_updated r = Some 5%Z
      /\ s_confirmed r = false
      /\ s_region r = "AU".
Proof.
  destruct (refresh_and_confirm_need_a_record Demo.cfg (F := Q))
    as (_ & Hnone & Hsome).
  split.
  - apply (Hnone (Demo.world 0%Z) "Charizard" Demo.chosen
                 (Some Demo.ash_token) Demo.db_ash Demo.ash);
      [demo_auth | reflexivity].
  - destruct (Hsome (Demo.world_down 5%Z) "Charizard" (Some Demo.ash_token)
                    Demo.db_searched Demo.ash Demo.searched_row)
      as ((r & Hr & Hres & Himg & Hupd & Hconf & Hreg & _) & _);
      [demo_auth | reflexivity |].
    exists r. repeat split; assumption.
Defined.

Lemma marketplace_failure_degrades_witness :
  marketplace_fails (Demo.world_down 0%Z) "Charizard" (marketplace_of "AU")
  /\ gather_prices_by_grade Demo.cfg (Demo.world_down 0%Z) "Charizard" "AU"
     = (empty_grades, "https://ddg/img.jpg",
        [CallEbay "Charizard" "EBAY_AU" 50; CallGoogle "Charizard";
         CallDuckDuckGo "Charizard"]).
Proof.
  assert (Hfail : marketplace_fails (Demo.world_down 0%Z) "Charizard"
                                    (marketplace_of "AU")).
  { right. exists 503%Z, None. split; reflexivity. }
  split; [exact Hfail|].
  destruct (marketplace_failure_degrades Demo.cfg (Demo.world_down 0%Z)
              "Charizard" "AU" Hfail) as (Hg & _).
  rewrite Hg. reflexivity.
Defined.

Lemma image_resolution_witness :
  image_of Demo.cfg (Demo.world 0%Z) "Charizard" "AU" = "https://img/psa9.jpg"
  /\ image_of Demo.cfg (Demo.world 0%Z) "Charizard" "US"
     = "https://google/img.jpg"
  /\ ~ In (CallDuckDuckGo "Charizard")
          (snd (gather_prices_by_grade Demo.cfg (Demo.world 0%Z)
                                       "Charizard" "US")).
Proof.
  split; [| split].
  - destruct (image_resolution Demo.cfg (Demo.world 0%Z) "Charizard" "AU")
      as (Hfirst & _ & _).
    apply (Hfirst (firstn 2 Demo.items)
                  (nth 2 Demo.items (Demo.listing "" None None))
                  (skipn 3 Demo.items)).
    + reflexivity.
    + repeat constructor.
    + reflexivity.
  - destruct (image_resolution Demo.cfg (Demo.world 0%Z) "Charizard" "US")
      as (_ & Hnone & _).
    apply Hnone. constructor.
  - destruct (image_resolution Demo.cfg (Demo.world 0%Z) "Charizard" "US")
      as (_ & Hnone & _).
    destruct (Hnone (Forall_nil _)) as (_ & Hddg & _).
    intros Hin. apply Hddg in Hin. discriminate Hin.
Defined.

(** C8, as stated, fails: the first listing yields a non-empty image URL
    through its first thumbnail, its price does not parse, and the image of
    the result is that of the later listing. *)
Lemma first_image_counterexample :
  exists first second,
    fst (ebay_search_items Demo.cfg Demo.world_thumbnail "Mew" "EBAY_AU" 50)
    = [first; second]
    /\ listing_image first = Some "https://img/thumb.jpg"
    /\ image_of Demo.cfg Demo.world_thumbnail "Mew" "AU"
       = "https://img/later.jpg".
Proof.
  eexists. eexists. split; [reflexivity | split; reflexivity].
Qed.

Lemma login_outcomes_witness :
  login_for_access_token Demo.cfg (Demo.world 0%Z) "misty" "togepi" Demo.db_ash
  = (inl bad_credentials, Demo.db_ash)
  /\ login_for_access_token Demo.cfg (Demo.world 0%Z) "ash" "raichu" Demo.db_ash
     = (inl bad_credentials, Demo.db_ash)
  /\ login_for_access_token Demo.cfg (Demo.world 0%Z) "ash" "pikachu" Demo.db_ash
     = (inr {| access_token :=
                 Jwt "change-me" {| sub := Some "ash"; exp := Some 3600%Z |};
               token_type := "bearer" |}, Demo.db_ash).
Proof.
  destruct (login_outcomes Demo.cfg (F := Q)) as (_ & Hnone & Hbad & Hok).
  split; [| split].
  - apply Hnone. reflexivity.
  - apply (Hbad _ _ _ _ Demo.ash); reflexivity.
  - apply (Hok (Demo.world 0%Z) "ash" "pikachu" Demo.db_ash Demo.ash);
      reflexivity.
Defined.

(** C9, as stated, fails: a login with an unknown user name, or with a wrong
    password, is answered with status 400, not 401. *)
Lemma login_status_counterexample :
  exists e1 e2,
    fst (login_for_access_token Demo.cfg (Demo.world 0%Z) "misty" "togepi"
                                Demo.db_ash) = inl e1
    /\ fst (login_for_access_token Demo.cfg (Demo.world 0%Z) "ash" "raichu"
                                   Demo.db_ash) = inl e2
    /\ status_of e1 = 400%Z /\ status_of e2 = 400%Z
    /\ status_of e1 <> 401%Z /\ status_of e2 <> 401%Z.
Proof.
  eexists. eexists. split; [reflexivity | split; [reflexivity|]].
  repeat split; discriminate.
Qed.

Lemma search_keeps_stored_region_witness :
  exists r,
    record_of (snd (api_search Demo.cfg (Demo.world 3%Z) "Charizard" "US"
                               (Some Demo.ash_token) Demo.db_searched))
              Demo.ash "Charizard" = Some r
    /\ s_region r = "AU"
    /\ s_last_result r
       = Some (payload_of Demo.cfg (Demo.world 3%Z) "Charizard" "US")
    /\ s_confirmed r = false.
Proof.
  destruct (search_keeps_stored_region Demo.cfg (Demo.world 3%Z)
              "Charizard" "US" (Some Demo.ash_token) Demo.db_searched
              Demo.ash Demo.searched_row)
    as ((r & Hr & Hreg & _ & Hres & _ & _ & Hconf) & _);
    [demo_auth | reflexivity |].
  exists r. repeat split; assumption.
Defined.

(** * Further properties *)

Section Steps.

Context {F : Type} {PA : PriceArith F}.
Variable cfg : Config.

Implicit Types (w : World F) (db : DB F) (u : UserRow).
Implicit Types (r row : SearchRow F).

Lemma get_current_user_found w token db u :
  get_current_user cfg w token db = (inr u, db) ->
  exists c,
    jwt_decode token (JWT_SECRET_KEY cfg) (utcnow w 0) = Some c
    /\ sub c = Some (u_username u)
    /\ user_by_name db (u_username u) = Some u.
Proof.
  unfold get_current_user, user_by_name.
  destruct (jwt_decode _ _ _) as [c|]; [| unfold raise; discriminate].
  destruct (sub c) as [name|] eqn:Hsub; [| unfold raise; discriminate].
  unfold bind, fetch_user, gets, raise, ret.
  destruct (find _ (users db)) as [u'|] eqn:Hfind; [| discriminate].
  intros [= ->]. exists c.
  assert (Hname : u_username u = name).
  { apply find_some in Hfind. apply String.eqb_eq, Hfind. }
  rewrite Hname. auto.
Qed.

Lemma user_by_name_in db name u :
  user_by_name db name = Some u -> In u (users db) /\ u_username u = name.
Proof.
  unfold user_by_name. intros H. apply find_some in H.
  split; [apply H | apply String.eqb_eq, H].
Qed.

Lemma authenticated_user w authorization db u :
  authenticated cfg w authorization db u -> In u (users db).
Proof.
  intros (_ & token & _ & Hg).
  destruct (get_current_user_found _ _ _ _ Hg) as (c & _ & _ & Hu).
  apply (user_by_name_in _ _ _ Hu).
Qed.

Lemma register_cases w username password db :
  register cfg w username password db
  = if rate_limited w then (inl too_many_requests, db)
    else match user_by_name db username with
         | Some _ => (inl username_taken, db)
         | None =>
             (inr "/login",
              {| users := users db ++ [new_user cfg w db username password];
                 searches := searches db |})
         end.
Proof.
  unfold register, bind, rate_limiter, fetch_user, gets, insert_user, modify,
    raise, ret, user_by_name.
  destruct (rate_limited w); [reflexivity|]. cbv beta iota.
  destruct (find _ _); reflexivity.
Qed.

Lemma handle_step w rq db : Step cfg db (handle cfg w rq db).
Proof.
  destruct rq as [un pw | un pw | a c rg | a c | a c i | a]; cbn [handle].
  - rewrite register_cases.
    destruct (rate_limited w); [apply StepNone; reflexivity|].
    destruct (user_by_name db un) eqn:Hun; [apply StepNone; reflexivity|].
    eapply StepUser; [exact Hun | reflexivity].
  - apply StepNone, login_state.
  - destruct (authenticated_dec cfg w a db) as [[u Hu]|Hno].
    + rewrite (api_search_authenticated _ _ _ _ _ _ _ Hu). cbn [snd].
      pose proof (authenticated_user _ _ _ _ Hu) as Hin.
      destruct (record_of db u c) as [row|] eqn:Hrec.
      * eapply StepResult; [exact Hin | exact Hrec | reflexivity].
      * eapply StepInsert; [exact Hin | exact Hrec | reflexivity].
    + apply StepNone, rejected_db, api_search_rejected, Hno.
  - destruct (authenticated_dec cfg w a db) as [[u Hu]|Hno].
    + rewrite (api_refresh_authenticated _ _ _ _ _ _ Hu).
      pose proof (authenticated_user _ _ _ _ Hu) as Hin.
      destruct (record_of db u c) as [row|] eqn:Hrec.
      * eapply StepResult; [exact Hin | exact Hrec | reflexivity].
      * apply StepNone. reflexivity.
    + apply StepNone, rejected_db, api_refresh_rejected, Hno.
  - destruct (authenticated_dec cfg w a db) as [[u Hu]|Hno].
    + rewrite (api_confirm_image_authenticated _ _ _ _ _ _ _ Hu).
      pose proof (authenticated_user _ _ _ _ Hu) as Hin.
      destruct (record_of db u c) as [row|] eqn:Hrec.
      * eapply StepImage; [exact Hin | exact Hrec | reflexivity].
      * apply StepNone. reflexivity.
    + apply StepNone, rejected_db, api_confirm_image_rejected, Hno.
  - apply StepNone, api_saved_state.
Qed.

(** An invariant of the steps is an invariant of every run. *)
Lemma run_invariant (P : DB F -> Prop) :
  (forall db db', P db -> Step cfg db db' -> P db') ->
  forall rqs db, P db -> P (run cfg rqs db).
Proof.
  intros Hstep rqs. induction rqs as [|[w rq] rest IH]; intros db HP;
    cbn [run]; [exact HP|].
  apply IH. apply (Hstep db); [exact HP | apply handle_step].
Qed.

Lemma NoDup_snoc_gen {A : Type} (l : list A) (a : A) :
  NoDup l -> ~ In a l -> NoDup (l ++ [a]).
Proof.
  induction l as [|x rest IH]; simpl; intros Hnd Hnot.
  - constructor; [simpl; tauto | constructor].
  - inversion Hnd as [|? ? Hx Hrest]; subst. constructor.
    + rewrite in_app_iff. simpl. intros [H | [H | []]]; [tauto|].
      apply Hnot. left. symmetry. exact H.
    + apply IH; [exact Hrest | tauto].
Qed.

Lemma user_by_name_none db name :
  user_by_name db name = None -> ~ In name (map u_username (users db)).
Proof.
  unfold user_by_name. intros Hnone Hin. apply in_map_iff in Hin.
  destruct Hin as (u & Hu & Hin).
  apply (find_none _ _ Hnone) in Hin. rewrite Hu, String.eqb_refl in Hin.
  discriminate.
Qed.

Lemma record_of_none db u card_name :
  record_of db u card_name = None ->
  ~ In (u_id u, card_name) (map record_key (searches db)).
Proof.
  unfold record_of. intros Hnone Hin. apply in_map_iff in Hin.
  destruct Hin as (r & Hr & Hin).
  apply (find_none _ _ Hnone) in Hin. unfold record_key in Hr.
  injection Hr as H1 H2. unfold search_key in Hin.
  rewrite H1, H2, Z.eqb_refl, String.eqb_refl in Hin. discriminate.
Qed.

Lemma map_update_preserved {B : Type} (g : SearchRow F -> B)
      (f : SearchRow F -> SearchRow F) (id : Z) (rows : list (SearchRow F)) :
  (forall r, g (f r) = g r) ->
  map g (map (fun r => if (s_id r =? id)%Z then f r else r) rows)
  = map g rows.
Proof.
  intros Hf. rewrite map_map. apply map_ext. intros r.
  destruct (s_id r =? id)%Z; [apply Hf | reflexivity].
Qed.

Lemma step_users db db' :
  Step cfg db db' ->
  users db' = users db
  \/ exists w username password,
      user_by_name db username = None
      /\ users db' = users db ++ [new_user cfg w db username password].
Proof.
  intros [-> | w un pw Hnone -> | u c row p img now _ _ ->
          | u c row img now _ _ -> | u c rg p img now _ _ ->];
    cbn [users]; try (left; reflexivity).
  right. exists w, un, pw. split; [exact Hnone | reflexivity].
Qed.

Lemma find_app_found {A : Type} (f : A -> bool) (l l' : list A) (x : A) :
  find f l = Some x -> find f (l ++ l') = Some x.
Proof.
  induction l as [|y rest IH]; simpl; [discriminate|].
  destruct (f y); [tauto | exact IH].
Qed.

Lemma step_user_by_name db db' name u :
  Step cfg db db' ->
  user_by_name db name = Some u -> user_by_name db' name = Some u.
Proof.
  intros Hstep Hfind. unfold user_by_name in *.
  destruct (step_users _ _ Hstep) as [-> | (w & un & pw & _ & ->)];
    [exact Hfind | apply find_app_found, Hfind].
Qed.

End Steps.

Section Accounts.

Context {F : Type} {PA : PriceArith F}.
Variable cfg : Config.

Implicit Types (w : World F) (db : DB F) (u : UserRow).

Lemma find_app {A : Type} (f : A -> bool) (l l' : list A) :
  find f (l ++ l')
  = match find f l with Some x => Some x | None => find f l' end.
Proof.
  induction l as [|y rest IH]; simpl; [reflexivity|].
  destruct (f y); [reflexivity | exact IH].
Qed.


Lemma step_accounts_unique db db' :
  Step cfg db db' ->
  usernames_unique db /\ user_ids_unique db ->
  usernames_unique db' /\ user_ids_unique db'.
Proof.
  unfold usernames_unique, user_ids_unique. intros Hstep [Hn Hi].
  destruct (step_users cfg _ _ Hstep) as [-> | (w & un & pw & Hnone & ->)];
    [split; assumption|].
  rewrite !map_app. cbn [map new_user u_username u_id]. split.
  - apply NoDup_snoc_gen; [exact Hn | apply user_by_name_none, Hnone].
  - apply NoDup_snoc_gen; [exact Hi | apply next_id_fresh].
Qed.

(** X2. User names and user ids stay unique: when they are unique in a
    database, they are unique after any sequence of requests; in
    particular after any sequence from the empty database. *)
Theorem accounts_stay_unique (rqs : list (World F * Request)) :
  (forall db,
      usernames_unique db -> user_ids_unique db ->
      usernames_unique (run cfg rqs db) /\ user_ids_unique (run cfg rqs db))
  /\ usernames_unique (run cfg rqs empty_db)
  /\ user_ids_unique (run cfg rqs empty_db).
Proof.
  assert (Hgen : forall db,
             usernames_unique db /\ user_ids_unique db ->
             usernames_unique (run cfg rqs db)
             /\ user_ids_unique (run cfg rqs db)).
  { apply (run_invariant cfg
             (fun db => usernames_unique db /\ user_ids_unique db)).
    intros db db' HP Hstep. apply (step_accounts_unique db db' Hstep HP). }
  split.
  - intros db Hn Hi. apply Hgen. split; assumption.
  - apply Hgen. split; constructor.
Qed.

(** X4. [get_current_user] returns the user [u] exactly when the token is
    signed with the secret key, its [exp] claim (if any) is not in the past,
    its [sub] claim names a user and [u] is the row of that name.  In every
    other case it fails with the same 401 error "Could not validate
    credentials"; it never changes the database. *)
Theorem get_current_user_spec w token db :
  (forall u,
      get_current_user cfg w token db = (inr u, db)
      <-> exists c username,
            token = Jwt (JWT_SECRET_KEY cfg) c
            /\ (forall e, exp c = Some e -> (seconds_of (utcnow w 0) <= e)%Z)
            /\ sub c = Some username
            /\ user_by_name db username = Some u)
  /\ (forall e db',
         get_current_user cfg w token db = (inl e, db') ->
         e = credentials_exception /\ status_of e = 401%Z)
  /\ snd (get_current_user cfg w token db) = db.
Proof.
  split; [| split].
  - intros u. split.
    + intros Hg.
      destruct (get_current_user_found cfg _ _ _ _ Hg) as (c & Hdec & Hsub & Hu).
      exists c, (u_username u). unfold jwt_decode in Hdec.
      destruct token as [txt | k c']; [discriminate|].
      destruct (String.eqb k (JWT_SECRET_KEY cfg)) eqn:Hk; [| discriminate].
      apply String.eqb_eq in Hk. subst k.
      destruct (exp c') as [e'|] eqn:Hexp.
      * destruct (Z.ltb_spec e' (seconds_of (utcnow w 0))) as [|Hle];
          [discriminate|].
        injection Hdec as <-. repeat split; try assumption.
        intros e He. rewrite Hexp in He. injection He as <-. exact Hle.
      * injection Hdec as <-. repeat split; try assumption.
        intros e He. rewrite Hexp in He. discriminate.
    + intros (c & username & -> & Hexp & Hsub & Hu).
      unfold get_current_user, jwt_decode. rewrite String.eqb_refl.
      assert (Hdec : match exp c with
                     | Some e => if (e <? seconds_of (utcnow w 0))%Z
                                 then None else Some c
                     | None => Some c
                     end = Some c).
      { destruct (exp c) as [e|]; [| reflexivity].
        specialize (Hexp e eq_refl).
        destruct (Z.ltb_spec e (seconds_of (utcnow w 0))); [lia | reflexivity]. }
      rewrite Hdec, Hsub. unfold bind, fetch_user, gets. cbv beta.
      unfold user_by_name in Hu. rewrite Hu. reflexivity.
  - intros e db' Hg.
    rewrite (get_current_user_error cfg _ _ _ _ _ Hg). split; reflexivity.
  - apply get_current_user_state.
Qed.

(** X5. A token made by [create_access_token] decodes with the secret key
    to the subject it was made for, up to and including the second of its
    expiry, and is refused afterwards and under any other key.  The expiry
    lies the given delta after the clock reading; a missing delta and a zero
    delta both stand for [ACCESS_TOKEN_EXPIRE_MINUTES]. *)
Theorem access_token_lifetime w (data : Claims) (expires_delta : option Z)
        (now' : Time) :
  let expire :=
    seconds_of (utcnow w 0 + effective_delta cfg expires_delta)%Z in
  let token := create_access_token cfg w data expires_delta in
  jwt_decode token (JWT_SECRET_KEY cfg) now'
  = (if (seconds_of now' <=? expire)%Z
     then Some {| sub := sub data; exp := Some expire |}
     else None)
  /\ (forall key, key <> JWT_SECRET_KEY cfg -> jwt_decode token key now' = None).
Proof.
  cbv zeta.
  assert (Hd : create_access_token cfg w data expires_delta
               = Jwt (JWT_SECRET_KEY cfg)
                     {| sub := sub data;
                        exp := Some (seconds_of
                                       (utcnow w 0
                                        + effective_delta cfg expires_delta)%Z) |}).
  { unfold create_access_token, jwt_encode, effective_delta.
    destruct expires_delta as [[|d|d]|]; reflexivity. }
  rewrite Hd. unfold jwt_decode. split.
  - rewrite String.eqb_refl. cbn [exp].
    destruct (Z.ltb_spec
                (seconds_of (utcnow w 0 + effective_delta cfg expires_delta)%Z)
                (seconds_of now')),
             (Z.leb_spec
                (seconds_of now')
                (seconds_of (utcnow w 0 + effective_delta cfg expires_delta)%Z));
      try reflexivity; lia.
  - intros key Hkey.
    destruct (String.eqb_spec (JWT_SECRET_KEY cfg) key) as [He|_];
      [congruence | reflexivity].
Qed.

(** X3. After a successful registration, a login with the same user name
    and password succeeds, provided the password context verifies the
    password against the hash it made; the token it returns resolves to the
    new user for as long as its expiry allows. *)
Theorem register_then_login w1 w2 username password db :
  rate_limited w1 = false ->
  user_by_name db username = None ->
  pwd_verify cfg password (pwd_hash cfg (salt w1) password) = true ->
  let db1 := snd (register cfg w1 username password db) in
  exists resp u,
    login_for_access_token cfg w2 username password db1 = (inr resp, db1)
    /\ token_type resp = "bearer"
    /\ u_username u = username
    /\ In u (users db1)
    /\ (forall w3 : World F,
           (seconds_of (utcnow w3 0)
            <= seconds_of (utcnow w2 0
                           + timedelta_minutes
                               (ACCESS_TOKEN_EXPIRE_MINUTES cfg)))%Z ->
           get_current_user cfg w3 (access_token resp) db1 = (inr u, db1)).
Proof.
  intros Hrl Hnone Hver. cbv zeta. rewrite register_cases, Hrl, Hnone.
  cbn [snd].
  set (db1 := {| users := users db ++ [new_user cfg w1 db username password];
                 searches := searches db |}).
  assert (Hfind : user_by_name db1 username
                  = Some (new_user cfg w1 db username password)).
  { unfold user_by_name in *. cbn [users db1]. rewrite find_app, Hnone.
    cbn. rewrite String.eqb_refl. reflexivity. }
  eexists. exists (new_user cfg w1 db username password).
  split; [| split; [| split; [| split]]].
  - unfold login_for_access_token, bind, fetch_user, gets.
    unfold user_by_name in Hfind. rewrite Hfind.
    unfold verify_password. cbn [u_password_hash new_user]. rewrite Hver.
    reflexivity.
  - reflexivity.
  - reflexivity.
  - cbn [users db1]. apply in_or_app. right. left. reflexivity.
  - intros w3 Hlive. cbn [access_token].
    unfold get_current_user, create_access_token, jwt_encode, jwt_decode.
    rewrite String.eqb_refl. cbn [exp sub u_username new_user].
    destruct (Z.ltb_spec
                (seconds_of (utcnow w2 0 + timedelta_minutes
                               (ACCESS_TOKEN_EXPIRE_MINUTES cfg))%Z)
                (seconds_of (utcnow w3 0))) as [Hlt|_]; [lia|].
    cbn [sub]. unfold bind, fetch_user, gets. cbv beta.
    unfold user_by_name in Hfind. rewrite Hfind. reflexivity.
Qed.

End Accounts.

Section Records.

Context {F : Type} {PA : PriceArith F}.
Variable cfg : Config.

Implicit Types (w : World F) (db : DB F) (u : UserRow).
Implicit Types (r row : SearchRow F).

(** X6. While the quota is not used up, a request without a bearer token,
    or with one that does not resolve to a user, is refused by search,
    refresh, confirm-image and list-saved alike with one and the same 401
    error, and the database stays as it was. *)
Theorem protected_routes_require_token
        w card_name region image_url authorization db :
  rate_limited w = false ->
  unresolved cfg w authorization db ->
  exists e,
    status_of e = 401%Z
    /\ api_search cfg w card_name region authorization db = (inl e, db)
    /\ api_refresh cfg w card_name authorization db = (inl e, db)
    /\ api_confirm_image cfg w card_name image_url authorization db
       = (inl e, db)
    /\ api_saved cfg w authorization db = (inl e, db).
Proof.
  intros Hrl Hun. unfold api_search, api_refresh, api_confirm_image, api_saved.
  unfold bind, rate_limiter, oauth2_scheme, raise, ret.
  rewrite Hrl. destruct authorization as [token|]; cbv beta iota.
  - pose proof (get_current_user_state cfg w token db) as Hst.
    destruct (get_current_user cfg w token db) as [[e|u] db1] eqn:Hg;
      cbn [snd] in Hst; subst db1.
    + exists e. rewrite (get_current_user_error cfg _ _ _ _ _ Hg).
      repeat split.
    + destruct (Hun u). exists token. split; [reflexivity | exact Hg].
  - exists (mkHTTPException 401 "Not authenticated"). repeat split.
Qed.

Lemma step_record_kept db db' r :
  Step cfg db db' ->
  In r (searches db) ->
  exists r',
    In r' (searches db')
    /\ s_id r' = s_id r /\ s_user_id r' = s_user_id r
    /\ s_card_name r' = s_card_name r /\ s_region r' = s_region r.
Proof.
  assert (Hmap : forall (f : SearchRow F -> SearchRow F) id rows,
             (forall x, s_id (f x) = s_id x /\ s_user_id (f x) = s_user_id x
                        /\ s_card_name (f x) = s_card_name x
                        /\ s_region (f x) = s_region x) ->
             In r rows ->
             exists r',
               In r' (map (fun x => if (s_id x =? id)%Z then f x else x) rows)
               /\ s_id r' = s_id r /\ s_user_id r' = s_user_id r
               /\ s_card_name r' = s_card_name r /\ s_region r' = s_region r).
  { intros f id rows Hf Hin.
    exists (if (s_id r =? id)%Z then f r else r). split.
    - apply in_map_iff. exists r. split; [reflexivity | exact Hin].
    - destruct (s_id r =? id)%Z; [apply Hf | repeat split]. }
  intros [-> | w un pw _ -> | u c row p img now _ _ ->
          | u c row img now _ _ -> | u c rg p img now _ _ ->] Hin;
    cbn [searches].
  - exists r. repeat split. exact Hin.
  - exists r. repeat split. exact Hin.
  - apply Hmap; [intros x; repeat split | exact Hin].
  - apply Hmap; [intros x; repeat split | exact Hin].
  - exists r. repeat split. apply in_or_app. left. exact Hin.
Qed.

(** X7. Records are never deleted and their id, owner, card name and
    region never change: every record of a database is still there, under
    the same id and with these four fields as they were, after any sequence
    of requests. *)
Theorem records_persist (rqs : list (World F * Request)) db r :
  In r (searches db) ->
  exists r',
    In r' (searches (run cfg rqs db))
    /\ s_id r' = s_id r /\ s_user_id r' = s_user_id r
    /\ s_card_name r' = s_card_name r /\ s_region r' = s_region r.
Proof.
  intros Hin.
  apply (run_invariant cfg
           (fun d => exists r',
                In r' (searches d)
                /\ s_id r' = s_id r /\ s_user_id r' = s_user_id r
                /\ s_card_name r' = s_card_name r
                /\ s_region r' = s_region r)).
  - intros d d' (r1 & Hin1 & Hid & Hu & Hc & Hreg) Hstep.
    destruct (step_record_kept d d' r1 Hstep Hin1)
      as (r2 & Hin2 & Hid2 & Hu2 & Hc2 & Hreg2).
    exists r2. repeat split; congruence.
  - exists r. repeat split. exact Hin.
Qed.

Lemma NoDup_map_eq {A B : Type} (g : A -> B) (l : list A) (x y : A) :
  NoDup (map g l) -> In x l -> In y l -> g x = g y -> x = y.
Proof.
  induction l as [|z rest IH]; simpl; [tauto|].
  intros Hnd Hx Hy Hg. inversion Hnd as [|? ? Hnotin Hnd']; subst.
  destruct Hx as [-> | Hx], Hy as [-> | Hy].
  - reflexivity.
  - exfalso. apply Hnotin. rewrite Hg. apply in_map, Hy.
  - exfalso. apply Hnotin. rewrite <- Hg. apply in_map, Hx.
  - apply IH; assumption.
Qed.

Lemma step_records_unique db db' :
  Step cfg db db' ->
  keys_unique db /\ unique_ids db ->
  keys_unique db' /\ unique_ids db'.
Proof.
  unfold keys_unique, unique_ids.
  intros [-> | w un pw _ -> | u c row p img now _ _ ->
          | u c row img now _ _ -> | u c rg p img now _ Hnone ->] [Hk Hi];
    cbn [searches]; try (split; assumption).
  - rewrite !map_update_preserved by reflexivity. split; assumption.
  - rewrite !map_update_preserved by reflexivity. split; assumption.
  - rewrite !map_app. cbn [map]. split.
    + apply NoDup_snoc_gen; [exact Hk | apply record_of_none, Hnone].
    + apply NoDup_snoc_gen; [exact Hi | apply next_id_fresh].
Qed.

(** X8. There is at most one record per user and card: when the pairs
    (user id, card name) and the ids are unique in a database, they are
    unique after any sequence of requests, and then every record of a user
    for a card is the record the handlers find for them; this holds in
    particular after any sequence from the empty database. *)
Theorem one_record_per_card (rqs : list (World F * Request)) :
  (forall db,
      keys_unique db -> unique_ids db ->
      let db' := run cfg rqs db in
      keys_unique db' /\ unique_ids db'
      /\ (forall r u,
             In r (searches db') -> s_user_id r = u_id u ->
             record_of db' u (s_card_name r) = Some r))
  /\ keys_unique (run cfg rqs empty_db).
Proof.
  assert (Hgen : forall db,
             keys_unique db /\ unique_ids db ->
             keys_unique (run cfg rqs db) /\ unique_ids (run cfg rqs db)).
  { apply (run_invariant cfg (fun db => keys_unique db /\ unique_ids db)).
    intros db db' HP Hstep. apply (step_records_unique db db' Hstep HP). }
  split.
  - intros db Hk Hi. cbv zeta.
    destruct (Hgen db (conj Hk Hi)) as [Hk' Hi'].
    split; [exact Hk' | split; [exact Hi'|]].
    intros r u Hin Huser. unfold record_of.
    destruct (find (search_key (u_id u) (s_card_name r))
                   (searches (run cfg rqs db))) as [r'|] eqn:Hfind.
    + apply find_some in Hfind. destruct Hfind as [Hin' Hkey].
      apply search_key_true in Hkey. destruct Hkey as [Hu' Hc'].
      f_equal. apply (NoDup_map_eq record_key _ r' r Hk' Hin' Hin).
      unfold record_key. rewrite Hu', Hc', Huser. reflexivity.
    + apply (find_none _ _ Hfind) in Hin. unfold search_key in Hin.
      rewrite Huser, Z.eqb_refl, String.eqb_refl in Hin. discriminate.
  - apply Hgen. split; constructor.
Qed.

Lemma step_records_complete db db' :
  Step cfg db db' ->
  (forall r, In r (searches db) -> complete r /\ owned db r) ->
  forall r, In r (searches db') -> complete r /\ owned db' r.
Proof.
  unfold complete, owned.
  intros [-> | w un pw _ -> | u c row p img now _ _ ->
          | u c row img now _ _ -> | u c rg p img now Hu _ ->] Hinv r Hin;
    cbn [searches users] in *.
  - apply Hinv, Hin.
  - destruct (Hinv r Hin) as (Hc & u & Hu & Hid). split; [exact Hc|].
    exists u. split; [apply in_or_app; left; exact Hu | exact Hid].
  - apply in_update in Hin. destruct Hin as [Hin | (x & Hx & _ & ->)].
    + apply Hinv, Hin.
    + destruct (Hinv x Hx) as (_ & Hown).
      split; [repeat split; discriminate | exact Hown].
  - apply in_update in Hin. destruct Hin as [Hin | (x & Hx & _ & ->)].
    + apply Hinv, Hin.
    + destruct (Hinv x Hx) as ((Hres & _ & _) & Hown).
      split; [| exact Hown].
      repeat split; [exact Hres | discriminate | discriminate].
  - apply in_app_or in Hin. destruct Hin as [Hin | [<- | []]].
    + apply Hinv, Hin.
    + split; [repeat split; discriminate|].
      exists u. split; [exact Hu | reflexivity].
Qed.

(** X9. Records are complete and owned: when every record of a database
    carries a result, an image and a time stamp and belongs to a row of
    [users], the same holds after any sequence of requests; in particular
    after any sequence from the empty database, where the [expired] flag of
    a record therefore never comes from a missing time stamp. *)
Theorem records_complete_and_owned (rqs : list (World F * Request)) :
  (forall db,
      (forall r, In r (searches db) -> complete r /\ owned db r) ->
      forall r, In r (searches (run cfg rqs db)) ->
                complete r /\ owned (run cfg rqs db) r)
  /\ (forall r (now : Time),
         In r (searches (run cfg rqs empty_db)) ->
         complete r /\ owned (run cfg rqs empty_db) r
         /\ exists t, s_last_updated r = Some t
                      /\ expired now (s_last_updated r)
                         = (timedelta_days 7 <? now - t)%Z).
Proof.
  assert (Hgen : forall db,
             (forall r, In r (searches db) -> complete r /\ owned db r) ->
             forall r, In r (searches (run cfg rqs db)) ->
                       complete r /\ owned (run cfg rqs db) r).
  { apply (run_invariant cfg
             (fun db => forall r, In r (searches db) ->
                                  complete r /\ owned db r)).
    intros db db' HP Hstep. apply (step_records_complete db db' Hstep HP). }
  split; [exact Hgen|].
  intros r now Hin.
  destruct (Hgen empty_db (fun r (H : In r []) => match H with end) r Hin)
    as [Hc Ho].
  split; [exact Hc | split; [exact Ho|]].
  destruct Hc as (_ & _ & Ht).
  destruct (s_last_updated r) as [t|]; [| congruence].
  exists t. split; reflexivity.
Qed.

(** X13. Accounts persist: over any sequence of requests no row of [users]
    is removed or altered, a user name keeps naming the same row, and a
    token that resolves to a user keeps resolving to that user. *)
Theorem accounts_persist (rqs : list (World F * Request)) db :
  (forall u, In u (users db) -> In u (users (run cfg rqs db)))
  /\ (forall name u,
         user_by_name db name = Some u ->
         user_by_name (run cfg rqs db) name = Some u)
  /\ (forall w token u,
         get_current_user cfg w token db = (inr u, db) ->
         get_current_user cfg w token (run cfg rqs db)
         = (inr u, run cfg rqs db)).
Proof.
  assert (Hname : forall name u,
             user_by_name db name = Some u ->
             user_by_name (run cfg rqs db) name = Some u).
  { intros name u.
    apply (run_invariant cfg (fun d => user_by_name d name = Some u)).
    intros d d' HP Hstep. apply (step_user_by_name cfg d d' name u Hstep HP). }
  split; [| split; [exact Hname|]].
  - intros u.
    apply (run_invariant cfg (fun d => In u (users d))).
    intros d d' HP Hstep.
    destruct (step_users cfg _ _ Hstep) as [-> | (w & un & pw & _ & ->)];
      [exact HP | apply in_or_app; left; exact HP].
  - intros w token u Hg.
    destruct (get_current_user_found cfg _ _ _ _ Hg) as (c & Hdec & Hsub & Hu).
    apply Hname in Hu.
    unfold get_current_user. rewrite Hdec, Hsub.
    unfold bind, fetch_user, gets. cbv beta.
    unfold user_by_name in Hu. rewrite Hu. reflexivity.
Qed.

End Records.

Section Saved.

Context {F : Type} {PA : PriceArith F}.
Variable cfg : Config.

Implicit Types (w : World F) (db : DB F) (u : UserRow).
Implicit Types (r row : SearchRow F).

Lemma saved_items_fields w rows :
  forall i, map item_fields (saved_items w i rows) = map row_fields rows.
Proof.
  induction rows as [|r rest IH]; intros i; cbn [saved_items map];
    [reflexivity|].
  rewrite IH. reflexivity.
Qed.

Lemma api_saved_returns w authorization db items db' :
  api_saved cfg w authorization db = (inr items, db') ->
  db' = db
  /\ exists u,
      resolves cfg w authorization db u
      /\ items = saved_items w 1
                   (filter (fun r => (s_user_id r =? u_id u)%Z) (searches db)).
Proof.
  intros Heq. pose proof (api_saved_state cfg w authorization db) as Hst.
  rewrite Heq in Hst. cbn [snd] in Hst. split; [exact Hst|].
  unfold api_saved, bind, oauth2_scheme, gets, json_response, raise, ret
    in Heq.
  destruct authorization as [token|]; [| discriminate].
  cbv beta iota in Heq.
  pose proof (get_current_user_state cfg w token db) as Hs.
  destruct (get_current_user cfg w token db) as [[e|u] db1] eqn:Hg;
    [discriminate|].
  cbn [snd] in Hs. subst db1.
  destruct (forallb _ _); [| discriminate].
  injection Heq as <- _.
  exists u. split; [| reflexivity].
  exists token. split; [reflexivity | exact Hg].
Qed.

Lemma resolves_unique w authorization db u u' :
  resolves cfg w authorization db u ->
  resolves cfg w authorization db u' -> u = u'.
Proof. intros (t & Ht & Hg) (t' & Ht' & Hg'). congruence. Qed.


(** The record of a card after an authenticated search. *)
Lemma record_after_search w card_name region authorization db u :
  authenticated cfg w authorization db u ->
  let db1 := snd (api_search cfg w card_name region authorization db) in
  exists r,
    record_of db1 u card_name = Some r
    /\ s_user_id r = u_id u
    /\ s_card_name r = card_name
    /\ s_last_result r = Some (payload_of cfg w card_name region)
    /\ s_last_image r = Some (image_of cfg w card_name region)
    /\ s_last_updated r = Some (utcnow w 1)
    /\ s_confirmed r = false
    /\ (record_of db u card_name = None ->
        r = new_record db u card_name region
                       (payload_of cfg w card_name region)
                       (image_of cfg w card_name region) (utcnow w 1)
        /\ db1 = {| users := users db; searches := searches db ++ [r] |}).
Proof.
  intros Hu. cbv zeta.
  rewrite (api_search_authenticated _ _ _ _ _ _ _ Hu). cbn [snd].
  destruct (record_of db u card_name) as [row|] eqn:Hrec.
  - destruct (record_of_key _ _ _ _ Hrec) as (_ & Huid & Hcard).
    eexists. split.
    + apply record_after_update; [reflexivity | reflexivity | exact Hrec].
    + cbn [with_result s_user_id s_card_name s_last_result s_last_image
             s_last_updated s_confirmed].
      repeat split; try assumption; discriminate.
  - exists (new_record db u card_name region
                       (payload_of cfg w card_name region)
                       (image_of cfg w card_name region) (utcnow w 1)).
    split.
    + unfold record_of, insert_search, modify. cbn [snd searches].
      apply find_app_new; [exact Hrec|].
      unfold search_key, new_record. cbn.
      rewrite Z.eqb_refl, String.eqb_refl. reflexivity.
    + repeat split.
Qed.

(** X10. The first search of a user for a card appends one record and
    changes nothing else: the record has a fresh id, the user, the card
    name, the region of the request, the computed result and image, the
    time of the request and [confirmed] false, and it is the record found
    for that user and card afterwards. *)
Theorem first_search_creates_record
        w card_name region authorization db u :
  authenticated cfg w authorization db u ->
  record_of db u card_name = None ->
  let db1 := snd (api_search cfg w card_name region authorization db) in
  exists r,
    db1 = {| users := users db; searches := searches db ++ [r] |}
    /\ record_of db1 u card_name = Some r
    /\ ~ In (s_id r) (map (@s_id F) (searches db))
    /\ s_user_id r = u_id u
    /\ s_card_name r = card_name
    /\ s_region r = region
    /\ s_last_result r = Some (payload_of cfg w card_name region)
    /\ s_last_image r = Some (image_of cfg w card_name region)
    /\ s_last_updated r = Some (utcnow w 1)
    /\ s_confirmed r = false.
Proof.
  intros Hu Hnone.
  destruct (record_after_search w card_name region authorization db u Hu)
    as (r & Hrec & Huid & Hcard & Hres & Himg & Hupd & Hconf & Hnew).
  destruct (Hnew Hnone) as [Hr Hdb]. cbv zeta.
  exists r. repeat split; try assumption.
  - rewrite Hr. apply next_id_fresh.
  - rewrite Hr. reflexivity.
Qed.

(** X11. What a search stores is what list-saved shows: after an
    authenticated search, every answer of list-saved for the same user
    contains an item for the card with the result and image the search
    computed, the time of the search and [confirmed] false. *)
Theorem search_then_list w card_name region authorization db u :
  authenticated cfg w authorization db u ->
  let db1 := snd (api_search cfg w card_name region authorization db) in
  forall (w2 : World F) authorization2 items db2,
    resolves cfg w2 authorization2 db1 u ->
    api_saved cfg w2 authorization2 db1 = (inr items, db2) ->
    exists it,
      In it items
      /\ si_card_name it = card_name
      /\ si_last_result it = Some (payload_of cfg w card_name region)
      /\ si_last_image it = Some (image_of cfg w card_name region)
      /\ si_last_updated it = Some (utcnow w 1)
      /\ si_confirmed it = false.
Proof.
  intros Hu. cbv zeta. intros w2 authorization2 items db2 Hres Heq.
  destruct (record_after_search w card_name region authorization db u Hu)
    as (r & Hrec & Huid & Hcard & Hresult & Himg & Hupd & Hconf & _).
  cbv zeta in Hrec.
  destruct (api_saved_returns _ _ _ _ _ Heq) as (_ & u' & Hres' & Hitems).
  assert (u' = u) as -> by (apply (resolves_unique _ _ _ _ _ Hres' Hres)).
  assert (Hin : In (row_fields r)
                   (map item_fields items)).
  { rewrite Hitems, saved_items_fields. apply in_map.
    apply filter_In. split.
    - apply (record_of_key _ _ _ _ Hrec).
    - rewrite Huid. apply Z.eqb_refl. }
  apply in_map_iff in Hin. destruct Hin as (it & Hfields & Hit).
  exists it. split; [exact Hit|].
  unfold item_fields, row_fields in Hfields.
  injection Hfields as H1 _ H3 H4 H5 H6.
  repeat split; congruence.
Qed.

(** X12. Confirm-image on an existing record succeeds and rewrites that
    record only: its image becomes the given URL, [confirmed] becomes true
    and the time stamp the time of the request, while its result, region, id
    and owner stay; the users and the records with another id are left as
    they were. *)
Theorem confirm_image_on_record
        w card_name image_url authorization db u row :
  authenticated cfg w authorization db u ->
  record_of db u card_name = Some row ->
  let res := api_confirm_image cfg w card_name image_url authorization db in
  fst res = inr tt
  /\ (exists r,
         record_of (snd res) u card_name = Some r
         /\ s_last_image r = Some image_url
         /\ s_confirmed r = true
         /\ s_last_updated r = Some (utcnow w 1)
         /\ s_last_result r = s_last_result row
         /\ s_region r = s_region row
         /\ s_id r = s_id row)
  /\ users (snd res) = users db
  /\ (forall r, In r (searches db) -> s_id r <> s_id row ->
                In r (searches (snd res))).
Proof.
  intros Hu Hrec. cbv zeta.
  rewrite (api_confirm_image_authenticated _ _ _ _ _ _ _ Hu), Hrec.
  split; [reflexivity | split; [| split; [reflexivity|]]].
  - eexists. split.
    + apply record_after_update; [reflexivity | reflexivity | exact Hrec].
    + repeat split.
  - intros r Hin Hne. unfold update_search, modify. cbn [snd searches].
    apply update_keeps_others; assumption.
Qed.

End Saved.

(** ** The decimal part of the grade patterns *)

Lemma many_ext (f : ascii -> bool) (s : list ascii) :
  forall last k1 k2,
    (forall p t, k1 p t = k2 p t) ->
    many f last s k1 = many f last s k2.
Proof.
  induction s as [|x t IH]; intros last k1 k2 Hk; cbn [many].
  - apply Hk.
  - rewrite (IH x k1 k2 Hk), Hk. reflexivity.
Qed.

Lemma rmatch_ext (r : regex) :
  forall prev s k1 k2,
    (forall p t, k1 p t = k2 p t) ->
    rmatch r prev s k1 = rmatch r prev s k2.
Proof.
  induction r as [c | f | | r1 IH1 r2 IH2 | r1 IH1 | f];
    intros prev s k1 k2 Hk; cbn [rmatch].
  - destruct s as [|x t]; [reflexivity|]. rewrite Hk. reflexivity.
  - destruct s as [|x t]; [reflexivity|]. rewrite Hk. reflexivity.
  - rewrite Hk. reflexivity.
  - apply IH1. intros p t. apply IH2, Hk.
  - rewrite (IH1 prev s k1 k2 Hk), Hk. reflexivity.
  - destruct s as [|x t]; [reflexivity|].
    rewrite (many_ext f t x k1 k2 Hk). reflexivity.
Qed.

Lemma is_digit_word (c : ascii) : is_digit c = true -> is_word c = true.
Proof.
  destruct c as [[] [] [] [] [] [] [] []]; intros H;
    solve [reflexivity | discriminate H].
Qed.

(** After one or two digits the continuation only sees a digit behind
    it. *)
Lemma digits_cont (prev : option ascii) (s : list ascii)
      (k1 k2 : option ascii -> list ascii -> bool) :
  (forall x t, is_digit x = true -> k1 (Some x) t = k2 (Some x) t) ->
  rmatch (Cat (Cls is_digit) (Opt (Cls is_digit))) prev s k1
  = rmatch (Cat (Cls is_digit) (Opt (Cls is_digit))) prev s k2.
Proof.
  intros Hk. cbn [rmatch].
  destruct s as [|x t]; [reflexivity|].
  destruct (is_digit x) eqn:Hx; [| reflexivity].
  rewrite (Hk x t Hx).
  destruct t as [|y t']; [reflexivity|].
  destruct (is_digit y) eqn:Hy; [| reflexivity].
  rewrite (Hk y t' Hy). reflexivity.
Qed.

(** Behind a digit, a decimal part that matches starts with a dot, and
    the word boundary then holds in front of the dot already. *)
Lemma decimal_part_redundant (x : ascii) (t : list ascii) :
  is_digit x = true ->
  rmatch (Opt (Cat (Lit ".") (Many1 is_digit))) (Some x) t
         (fun p t' => rmatch WordB p t' accept)
  = rmatch WordB (Some x) t accept.
Proof.
  intros Hx. cbn [rmatch].
  destruct t as [|c t1]; [reflexivity|].
  destruct (Ascii.eqb_spec c ".") as [-> | Hne].
  - assert (Hb : at_boundary (Some x) ("."%char :: t1) = true).
    { unfold at_boundary. cbn [hd_error word_opt].
      rewrite (is_digit_word x Hx). reflexivity. }
    rewrite Hb. unfold accept. apply orb_true_r.
  - reflexivity.
Qed.

Lemma lits_cong (r1 r2 : regex) :
  (forall p t, rmatch r1 p t accept = rmatch r2 p t accept) ->
  forall l p t, rmatch (lits l r1) p t accept = rmatch (lits l r2) p t accept.
Proof.
  intros Hr. induction l as [|c l IH]; intros p t; cbn [lits rmatch].
  - apply Hr.
  - destruct t as [|x t']; [reflexivity|].
    destruct (Ascii.eqb x c); [apply IH | reflexivity].
Qed.

Lemma grade_pattern_plain_match (abbr : string) (prev : option ascii)
      (s : list ascii) :
  rmatch (grade_pattern abbr) prev s accept
  = rmatch (grade_pattern_plain abbr) prev s accept.
Proof.
  unfold grade_pattern, grade_pattern_plain. cbn [rmatch]. f_equal.
  apply lits_cong. intros p t. unfold grade_number.
  change (rmatch (Opt (Cls is_sep)) p t
            (fun p' t' =>
               rmatch (Cat (Cls is_digit) (Opt (Cls is_digit))) p' t'
                 (fun p0 t0 =>
                    rmatch (Opt (Cat (Lit ".") (Many1 is_digit))) p0 t0
                           (fun p1 t1 => rmatch WordB p1 t1 accept)))
          = rmatch (Opt (Cls is_sep)) p t
              (fun p' t' =>
                 rmatch (Cat (Cls is_digit) (Opt (Cls is_digit))) p' t'
                   (fun p0 t0 => rmatch WordB p0 t0 accept))).
  apply rmatch_ext. intros p' t'. apply digits_cont. intros x t0 Hx.
  apply decimal_part_redundant, Hx.
Qed.

(** X15. The decimal part of the three patterns never decides: a pattern
    matches somewhere in a title exactly when the pattern without
    [(?:\.\d+)?] does, so a title is classified by the company name, an
    optional separator and one or two digits that end at a word boundary. *)
Theorem decimal_part_never_decides :
  (forall (abbr : string) (t : list ascii),
      search (grade_pattern abbr) t = search (grade_pattern_plain abbr) t)
  /\ (forall title : string,
         detect_grade_from_title (Some title)
         = first_match
             [ (PSA, grade_pattern_plain "psa");
               (BGS, grade_pattern_plain "bgs");
               (CGC, grade_pattern_plain "cgc") ]
             (lower (list_ascii_of_string title))).
Proof.
  assert (Hs : forall abbr t prev,
             search_from (grade_pattern abbr) prev t
             = search_from (grade_pattern_plain abbr) prev t).
  { intros abbr t. induction t as [|x t IH]; intros prev; cbn [search_from];
      rewrite grade_pattern_plain_match; [reflexivity|].
    rewrite IH. reflexivity. }
  split.
  - intros abbr t. apply Hs.
  - intros title. rewrite detect_grade_unfold.
    unfold patterns, first_match, search. rewrite !Hs. reflexivity.
Qed.

(** ** Regions, outbound requests and full buckets *)

Lemma upper_char_A (c : ascii) :
  upper_char c = "A"%char -> c = "a"%char \/ c = "A"%char.
Proof.
  destruct c as [[] [] [] [] [] [] [] []]; vm_compute; intros H;
    solve [discriminate H | auto].
Qed.

Lemma upper_char_U (c : ascii) :
  upper_char c = "U"%char -> c = "u"%char \/ c = "U"%char.
Proof.
  destruct c as [[] [] [] [] [] [] [] []]; vm_compute; intros H;
    solve [discriminate H | auto].
Qed.

(** X14. The marketplace is the Australian one exactly for the regions
    "AU", "Au", "aU" and "au"; every other region, the empty one and unknown
    codes included, is sent to the US marketplace. *)
Theorem region_marketplace (region : string) :
  (marketplace_of region = "EBAY_AU"
   <-> In region ["AU"; "Au"; "aU"; "au"])
  /\ (marketplace_of region = "EBAY_AU" \/ marketplace_of region = "EBAY_US").
Proof.
  unfold marketplace_of.
  destruct (String.eqb (upper region) "AU") eqn:Hup.
  - split; [| left; reflexivity]. split; [intros _ | reflexivity].
    apply String.eqb_eq in Hup. unfold upper in Hup.
    destruct region as [|c1 [|c2 [|c3 rest]]]; cbn in Hup;
      try discriminate Hup.
    injection Hup as H1 H2.
    apply upper_char_A in H1. apply upper_char_U in H2.
    destruct H1 as [-> | ->], H2 as [-> | ->]; cbn; tauto.
  - split; [| right; reflexivity]. split; [discriminate|].
    intros [<- | [<- | [<- | [<- | []]]]]; vm_compute in Hup;
      discriminate Hup.
Qed.

Section Requests.

Context {F : Type} {PA : PriceArith F}.
Variable cfg : Config.

Implicit Types (w : World F) (it : Listing F) (pre post : list (Listing F)).

(** X16. A run of the pipeline issues at most three outbound requests:
    first the marketplace request, for the card name, the marketplace of
    the region and the limit 50, and only when a marketplace token is
    configured; then at most one request to each image provider, Google
    before DuckDuckGo, each for the card name. *)
Theorem outbound_requests_shape w (card_name region : string) :
  let calls := snd (gather_prices_by_grade cfg w card_name region) in
  exists image_calls,
    calls = (if String.eqb (EBAY_OAUTH_TOKEN cfg) "" then []
             else [CallEbay card_name (marketplace_of region) 50])
            ++ image_calls
    /\ In image_calls
          [ [];
            [CallGoogle card_name];
            [CallGoogle card_name; CallDuckDuckGo card_name];
            [CallDuckDuckGo card_name] ]
    /\ (List.length calls <= 3)%nat.
Proof.
  cbv zeta. rewrite gather_prices_by_grade_unfold. cbv zeta.
  assert (He : snd (ebay_search_items cfg w card_name (marketplace_of region)
                                      50)
               = if String.eqb (EBAY_OAUTH_TOKEN cfg) "" then []
                 else [CallEbay card_name (marketplace_of region) 50]).
  { unfold ebay_search_items. destruct (String.eqb _ _); reflexivity. }
  assert (Hg : snd (google_image_search cfg w card_name) = []
               \/ snd (google_image_search cfg w card_name)
                  = [CallGoogle card_name]).
  { unfold google_image_search. destruct (_ || _)%bool; auto. }
  destruct (truthy (snd (gather_loop _))); cbn [snd].
  - exists []. rewrite app_nil_r, He.
    split; [reflexivity | split; [left; reflexivity|]].
    destruct (String.eqb _ _); simpl; lia.
  - rewrite image_fallback_unfold. cbv zeta. rewrite He.
    destruct (truthy (fst (google_image_search cfg w card_name)));
      cbn [snd]; destruct Hg as [-> | ->]; eexists;
      (split; [reflexivity|]); (split; [simpl; tauto|]);
      destruct (String.eqb _ _); simpl; lia.
Qed.

Lemma grades_ext (g1 g2 : Grades F) :
  (forall k, bucket_of g1 k = bucket_of g2 k) -> g1 = g2.
Proof.
  intros H. destruct g1, g2.
  pose proof (H raw). pose proof (H PSA). pose proof (H CGC).
  pose proof (H BGS). cbn in *. congruence.
Qed.

(** X17. Once three prices of a bucket have been collected, a further
    listing of that bucket changes no bucket: the buckets are those of the
    list without it.  The listing can still give the image: it does when it
    yields one and no earlier listing offered one. *)
Theorem full_bucket_takes_no_price pre it post (p : F) :
  price it = Some p ->
  (3 <= List.length
          (bucket_prices (detect_grade_from_title (title it)) pre))%nat ->
  fst (gather_loop (pre ++ it :: post)) = fst (gather_loop (pre ++ post))
  /\ (Forall (fun x => offers_image x = false) pre ->
      truthy (listing_image it) = true ->
      snd (gather_loop (pre ++ it :: post)) = listing_image it).
Proof.
  intros Hp Hfull. split.
  - apply grades_ext. intros k. rewrite !gather_loop_buckets.
    rewrite !bucket_prices_app.
    change (it :: post) with ([it] ++ post). rewrite bucket_prices_app.
    unfold bucket_prices at 2. cbn [flat_map]. rewrite Hp, app_nil_r.
    destruct (Grade_eqb (detect_grade_from_title (title it)) k) eqn:Hk.
    + assert (detect_grade_from_title (title it) = k)
        by (destruct (detect_grade_from_title (title it)), k;
            simpl in Hk; congruence).
      subst k. unfold SEARCH_LIMIT_PER_GRADE. rewrite !firstn_app.
      replace (3 - List.length
                     (bucket_prices (detect_grade_from_title (title it)) pre))%nat
        with 0%nat by lia.
      reflexivity.
    + reflexivity.
  - intros Hpre Hit. unfold gather_loop.
    apply fold_gather_image_first; [reflexivity | exact Hpre|].
    unfold offers_image, priced. rewrite Hp, Hit. reflexivity.
Qed.

End Requests.

(** ** The further properties on the demo deployment *)


Lemma accounts_stay_unique_witness :
  usernames_unique (run Demo.cfg Demo.session Demo.db_ash)
  /\ user_ids_unique (run Demo.cfg Demo.session Demo.db_ash).
Proof.
  destruct (accounts_stay_unique Demo.cfg Demo.session) as (Hgen & _).
  apply Hgen.
  - unfold usernames_unique. simpl. constructor; [simpl; tauto | constructor].
  - unfold user_ids_unique. simpl. constructor; [simpl; tauto | constructor].
Defined.

Lemma register_then_login_witness :
  let db1 := snd (register Demo.cfg (Demo.world 0%Z) "misty" "togepi"
                           Demo.db_ash) in
  exists resp u,
    login_for_access_token Demo.cfg (Demo.world 10%Z) "misty" "togepi" db1
    = (inr resp, db1)
    /\ u_username u = "misty"
    /\ get_current_user Demo.cfg (Demo.world 20%Z) (access_token resp) db1
       = (inr u, db1).
Proof.
  destruct (register_then_login Demo.cfg (Demo.world 0%Z) (Demo.world 10%Z)
              "misty" "togepi" Demo.db_ash eq_refl eq_refl eq_refl)
    as (resp & u & Hlogin & _ & Hname & _ & Hlive).
  exists resp, u. split; [exact Hlogin | split; [exact Hname|]].
  apply Hlive. vm_compute. discriminate.
Defined.

Lemma get_current_user_spec_witness :
  get_current_user Demo.cfg (Demo.world 0%Z) Demo.ash_token Demo.db_ash
  = (inr Demo.ash, Demo.db_ash).
Proof.
  destruct (get_current_user_spec Demo.cfg (Demo.world 0%Z) Demo.ash_token
              Demo.db_ash) as (Hiff & _ & _).
  apply (proj2 (Hiff Demo.ash)).
  exists {| sub := Some "ash"; exp := Some 1000000%Z |}, "ash".
  split; [reflexivity | split; [| split; reflexivity]].
  intros e He. injection He as <-. vm_compute. discriminate.
Defined.

Lemma access_token_lifetime_witness :
  let token := create_access_token Demo.cfg (Demo.world 0%Z)
                 {| sub := Some "ash"; exp := None |} (Some 0%Z) in
  jwt_decode token "change-me" 3600999999%Z
  = Some {| sub := Some "ash"; exp := Some 3600%Z |}
  /\ jwt_decode token "change-me" 3601000000%Z = None
  /\ jwt_decode token "guessed" 0%Z = None.
Proof.
  cbv zeta. split; [| split].
  - apply (proj1 (access_token_lifetime Demo.cfg (Demo.world 0%Z)
                    {| sub := Some "ash"; exp := None |} (Some 0%Z)
                    3600999999%Z)).
  - apply (proj1 (access_token_lifetime Demo.cfg (Demo.world 0%Z)
                    {| sub := Some "ash"; exp := None |} (Some 0%Z)
                    3601000000%Z)).
  - apply (proj2 (access_token_lifetime Demo.cfg (Demo.world 0%Z)
                    {| sub := Some "ash"; exp := None |} (Some 0%Z) 0%Z)).
    discriminate.
Defined.

Lemma protected_routes_require_token_witness :
  exists e,
    status_of e = 401%Z
    /\ api_search Demo.cfg (Demo.world 0%Z) "Charizard" "AU" None
                  Demo.db_searched = (inl e, Demo.db_searched)
    /\ api_saved Demo.cfg (Demo.world 0%Z) None Demo.db_searched
       = (inl e, Demo.db_searched).
Proof.
  destruct (protected_routes_require_token Demo.cfg (Demo.world 0%Z)
              "Charizard" "AU" Demo.chosen None Demo.db_searched eq_refl)
    as (e & He & Hs & _ & _ & Hl).
  - intros u (token & Ht & _). discriminate Ht.
  - exists e. split; [exact He | split; [exact Hs | exact Hl]].
Defined.

Lemma records_persist_witness :
  exists r',
    In r' (searches (run Demo.cfg Demo.session Demo.db_searched))
    /\ s_id r' = s_id Demo.searched_row
    /\ s_region r' = "AU".
Proof.
  destruct (records_persist Demo.cfg Demo.session Demo.db_searched
              Demo.searched_row) as (r' & Hin & Hid & _ & _ & Hreg).
  - left. reflexivity.
  - exists r'. split; [exact Hin | split; [exact Hid | exact Hreg]].
Defined.

Lemma one_record_per_card_witness :
  record_of Demo.db_confirmed Demo.ash "Charizard" = Some Demo.confirmed_row
  /\ keys_unique Demo.db_confirmed.
Proof.
  destruct (one_record_per_card Demo.cfg Demo.session) as (Hgen & _).
  destruct (Hgen empty_db) as (Hk & _ & Hrec).
  - constructor.
  - constructor.
  - split; [| exact Hk].
    apply (Hrec Demo.confirmed_row Demo.ash); [left; reflexivity | reflexivity].
Defined.

Lemma records_complete_and_owned_witness :
  complete Demo.confirmed_row
  /\ owned Demo.db_confirmed Demo.confirmed_row
  /\ expired (timedelta_days 7) (s_last_updated Demo.confirmed_row) = false.
Proof.
  destruct (records_complete_and_owned Demo.cfg Demo.session) as (_ & Hrun).
  destruct (Hrun Demo.confirmed_row (timedelta_days 7)) as (Hc & Ho & _).
  - left. reflexivity.
  - split; [exact Hc | split; [exact Ho | reflexivity]].
Defined.

Lemma first_search_creates_record_witness :
  exists r,
    Demo.db_searched = {| users := users Demo.db_ash;
                          searches := searches Demo.db_ash ++ [r] |}
    /\ s_region r = "AU" /\ s_confirmed r = false.
Proof.
  destruct (first_search_creates_record Demo.cfg (Demo.world 0%Z)
              "Charizard" "AU" (Some Demo.ash_token) Demo.db_ash Demo.ash)
    as (r & Hdb & _ & _ & _ & _ & Hreg & _ & _ & _ & Hconf);
    [demo_auth | reflexivity |].
  exists r. split; [exact Hdb | split; [exact Hreg | exact Hconf]].
Defined.

Lemma search_then_list_witness :
  exists it,
    In it (saved_items (Demo.world (timedelta_days 8)) 1
                       (searches Demo.db_searched))
    /\ si_card_name it = "Charizard"
    /\ si_last_result it
       = Some (payload_of Demo.cfg (Demo.world 0%Z) "Charizard" "AU")
    /\ si_confirmed it = false.
Proof.
  destruct (search_then_list Demo.cfg (Demo.world 0%Z) "Charizard" "AU"
              (Some Demo.ash_token) Demo.db_ash Demo.ash)
    with (w2 := Demo.world (timedelta_days 8))
         (authorization2 := Some Demo.ash_token)
         (items := saved_items (Demo.world (timedelta_days 8)) 1
                               (searches Demo.db_searched))
         (db2 := Demo.db_searched)
    as (it & Hin & Hcard & Hres & _ & _ & Hconf).
  - demo_auth.
  - exists Demo.ash_token. split; reflexivity.
  - vm_compute. reflexivity.
  - exists it. repeat split; assumption.
Defined.

Lemma confirm_image_on_record_witness :
  exists r,
    record_of (snd (api_confirm_image Demo.cfg (Demo.world 2%Z) "Charizard"
                                      Demo.chosen (Some Demo.ash_token)
                                      Demo.db_searched))
              Demo.ash "Charizard" = Some r
    /\ s_last_image r = Some Demo.chosen
    /\ s_confirmed r = true
    /\ s_last_result r = s_last_result Demo.searched_row.
Proof.
  destruct (confirm_image_on_record Demo.cfg (Demo.world 2%Z) "Charizard"
              Demo.chosen (Some Demo.ash_token) Demo.db_searched Demo.ash
              Demo.searched_row)
    as (_ & (r & Hr & Himg & Hconf & _ & Hres & _) & _);
    [demo_auth | reflexivity |].
  exists r. repeat split; assumption.
Defined.

Lemma accounts_persist_witness :
  In Demo.ash (users (run Demo.cfg Demo.session Demo.db_ash))
  /\ get_current_user Demo.cfg (Demo.world 0%Z) Demo.ash_token
                      (run Demo.cfg Demo.session Demo.db_ash)
     = (inr Demo.ash, run Demo.cfg Demo.session Demo.db_ash).
Proof.
  destruct (accounts_persist Demo.cfg Demo.session Demo.db_ash)
    as (Hin & _ & Htok).
  split.
  - apply Hin. left. reflexivity.
  - apply Htok. reflexivity.
Defined.

Lemma region_marketplace_witness :
  marketplace_of "au" = "EBAY_AU" /\ marketplace_of "UK" = "EBAY_US".
Proof.
  split.
  - apply (proj2 (proj1 (region_marketplace "au"))). simpl. tauto.
  - destruct (region_marketplace "UK") as (Hiff & [Hau | Hus]);
      [| exact Hus].
    apply (proj1 Hiff) in Hau. simpl in Hau.
    repeat (destruct Hau as [Hau | Hau]; [discriminate Hau|]).
    destruct Hau.
Defined.

Lemma full_bucket_takes_no_price_witness :
  fst (gather_loop Demo.items)
  = fst (gather_loop (firstn 5 Demo.items ++ skipn 6 Demo.items)).
Proof.
  apply (full_bucket_takes_no_price (firstn 5 Demo.items)
           (nth 5 Demo.items (Demo.listing "" None None))
           (skipn 6 Demo.items) (20 # 1)%Q).
  - reflexivity.
  - vm_compute. apply le_n.
Defined.

